(** * OracleMCP: query safety and execution engine

    A shallow embedding of the security policy (config/security.js), the SQL
    builder and validators (query/executor.js), the connection manager
    (db/connection.js), the error taxonomy (utils/errors.js) and the result
    mapper (mapper/data.js), followed by the properties the specification
    states about them. *)

From Stdlib Require Import ZArith NArith List Bool Lia String Ascii DecimalString.
From stdpp Require Import base option list gmap.
Import ListNotations.

(** ** JavaScript strings

    A JavaScript string is a finite sequence of UTF-16 code units; [length],
    [substring], [startsWith], [includes] and the regular expressions of the
    sources (none carries the [u] flag) all work on code units. *)

Module Js.

Definition codeunit := N.
Definition jsstring := list codeunit.

(** Source literals are written in UTF-8 in the files; [js] turns such a
    literal (characters of the basic multilingual plane) into code units. *)
Fixpoint utf16_of_utf8 (bs : list N) : jsstring :=
  match bs with
  | [] => []
  | b0 :: t =>
      if (b0 <? 0x80)%N then b0 :: utf16_of_utf8 t
      else if (b0 <? 0xE0)%N then
        match t with
        | b1 :: t1 =>
            N.lor (N.shiftl (N.land b0 0x1F) 6) (N.land b1 0x3F) :: utf16_of_utf8 t1
        | [] => []
        end
      else
        match t with
        | b1 :: b2 :: t2 =>
            N.lor (N.shiftl (N.land b0 0x0F) 12)
                  (N.lor (N.shiftl (N.land b1 0x3F) 6) (N.land b2 0x3F))
              :: utf16_of_utf8 t2
        | _ => []
        end
  end.

Definition js (s : string) : jsstring :=
  utf16_of_utf8 (List.map N_of_ascii (list_ascii_of_string s)).

(** WhiteSpace and LineTerminator of ECMAScript: what [String.prototype.trim]
    strips and what the class [\s] matches. *)
Definition isWhiteSpace (c : codeunit) : bool :=
  ((0x09 <=? c) && (c <=? 0x0D) || (c =? 0x20) || (c =? 0xA0) || (c =? 0x1680)
   || (0x2000 <=? c) && (c <=? 0x200A) || (c =? 0x2028) || (c =? 0x2029)
   || (c =? 0x202F) || (c =? 0x205F) || (c =? 0x3000) || (c =? 0xFEFF))%N.

(** The class [\w] behind [\b]: [A-Za-z0-9_]. *)
Definition isWordChar (c : codeunit) : bool :=
  ((0x41 <=? c) && (c <=? 0x5A) || (0x61 <=? c) && (c <=? 0x7A)
   || (0x30 <=? c) && (c <=? 0x39) || (c =? 0x5F))%N.

Definition isAscii (c : codeunit) : bool := (c <? 0x80)%N.

(** Upper-casing of one ASCII code unit; any other unit is left alone. *)
Definition asciiUpper (c : codeunit) : codeunit :=
  if ((0x61 <=? c) && (c <=? 0x7A))%N then (c - 0x20)%N else c.

Fixpoint trimStart (s : jsstring) : jsstring :=
  match s with
  | c :: t => if isWhiteSpace c then trimStart t else s
  | [] => []
  end.

Definition trimEnd (s : jsstring) : jsstring := rev (trimStart (rev s)).

Definition trim (s : jsstring) : jsstring := trimEnd (trimStart s).

Definition cu_eqb (a b : codeunit) : bool := (a =? b)%N.

Fixpoint startsWith (s p : jsstring) {struct p} : bool :=
  match p with
  | [] => true
  | a :: p' =>
      match s with
      | b :: s' => cu_eqb a b && startsWith s' p'
      | [] => false
      end
  end.

Definition endsWith (s p : jsstring) : bool := startsWith (rev s) (rev p).

Fixpoint includes (s p : jsstring) : bool :=
  startsWith s p || match s with [] => false | _ :: t => includes t p end.

Definition str_eqb (a b : jsstring) : bool := bool_decide (a = b).

(** [s.substring(0, n)] for [0 <= n]. *)
Definition substring0 (s : jsstring) (n : nat) : jsstring := firstn n s.

(** [s.slice(0, -1)]. *)
Definition slice_drop_last (s : jsstring) : jsstring := removelast s.

(** [s.split(sep)] for a separator of one code unit. *)
Fixpoint split_on (sep : codeunit) (s : jsstring) : list jsstring :=
  match s with
  | [] => [[]]
  | c :: t =>
      if cu_eqb c sep then [] :: split_on sep t
      else match split_on sep t with
           | w :: ws => (c :: w) :: ws
           | [] => [[c]]
           end
  end.

(** [arr.join(sep)]. *)
Fixpoint join (sep : jsstring) (parts : list jsstring) : jsstring :=
  match parts with
  | [] => []
  | [p] => p
  | p :: rest => p ++ sep ++ join sep rest
  end.

(** Template-literal rendering of an integral Number. *)
Definition numberToString (z : Z) : jsstring :=
  js (NilZero.string_of_int (Z.to_int z)).

(** *** Regular expressions

    The fragment the sources use: character sets, the assertions [^], [$] and
    [\b], sequence and alternation.  [re_match r prev s k] runs [r] at a
    position whose previous code unit is [prev] and whose remaining input is
    [s], and hands the position it stops at to the continuation [k]. *)
Inductive regex : Type :=
| ReEmpty
| ReBol
| ReEol
| ReWordBoundary
| ReSet (f : codeunit -> bool)
| ReSeq (a b : regex)
| ReAlt (a b : regex).

Definition isWordAt (p : option codeunit) : bool :=
  match p with Some c => isWordChar c | None => false end.

Fixpoint re_match (r : regex) (prev : option codeunit) (s : jsstring)
    (k : option codeunit -> jsstring -> bool) : bool :=
  match r with
  | ReEmpty => k prev s
  | ReBol => match prev with None => k prev s | Some _ => false end
  | ReEol => match s with [] => k prev s | _ :: _ => false end
  | ReWordBoundary => xorb (isWordAt prev) (isWordAt (head s)) && k prev s
  | ReSet f => match s with c :: t => f c && k (Some c) t | [] => false end
  | ReSeq a b => re_match a prev s (fun p t => re_match b p t k)
  | ReAlt a b => re_match a prev s k || re_match b prev s k
  end.

Fixpoint re_search (r : regex) (prev : option codeunit) (s : jsstring) : bool :=
  re_match r prev s (fun _ _ => true)
  || match s with [] => false | c :: t => re_search r (Some c) t end.

(** [regex.test(s)] for a regex without the [g], [y] and [m] flags. *)
Definition re_test (r : regex) (s : jsstring) : bool := re_search r None s.

(** A pattern character under the [i] flag.  The pattern characters of the
    sources are ASCII letters, and Canonicalize never sends a code unit
    above 127 to one below 128, so the flag amounts to ASCII case folding. *)
Definition ciChar (p : codeunit) : regex :=
  ReSet (fun c => cu_eqb (asciiUpper c) (asciiUpper p)).

Fixpoint ciLiteral (w : jsstring) : regex :=
  match w with
  | [] => ReEmpty
  | p :: w' => ReSeq (ciChar p) (ciLiteral w')
  end.

Definition reSpace : regex := ReSet isWhiteSpace.
Definition reLParen : regex := ReSet (fun c => cu_eqb c 0x28%N).

End Js.
Export Js.

(** The part of the language runtime the sources call but do not contain:
    full Unicode upper-casing and the ISO rendering of a time value.  On
    ASCII text [toUpperCase] is the ASCII upper-casing. *)
Class JsRuntime : Type := {
  toUpperCase : jsstring -> jsstring;
  toISOString : Z -> jsstring;
  toUpperCase_ascii :
    forall s, forallb isAscii s = true -> toUpperCase s = List.map asciiUpper s
}.


(** ** JavaScript values

    The dynamically typed values that reach the engine: tool arguments
    (JSON), driver cells ([Date], [Buffer]) and the normalized cells handed
    back.  Numbers are the integral ones (row counts, error codes, integer
    cells); a [Date] carries its time value, [None] for an invalid date; an
    object lists its own enumerable properties in [Object.keys] order. *)
#[local] Set Warnings "-register-all".
Inductive jsval : Type :=
| VUndefined
| VNull
| VBool (b : bool)
| VNumber (n : Z)
| VString (s : jsstring)
| VDate (t : option Z)
| VBuffer (bytes : list N)
| VArray (items : list jsval)
| VObject (props : list (jsstring * jsval)).

Definition truthy (v : jsval) : bool :=
  match v with
  | VUndefined | VNull => false
  | VBool b => b
  | VNumber n => negb (n =? 0)%Z
  | VString s => negb (str_eqb s [])
  | VDate _ | VBuffer _ | VArray _ | VObject _ => true
  end.

(** [typeof v === 'object']. *)
Definition typeofObject (v : jsval) : bool :=
  match v with
  | VNull | VDate _ | VBuffer _ | VArray _ | VObject _ => true
  | _ => false
  end.

Definition isArray (v : jsval) : bool :=
  match v with VArray _ => true | _ => false end.

Fixpoint assoc (k : jsstring) (props : list (jsstring * jsval)) : jsval :=
  match props with
  | [] => VUndefined
  | (k', v) :: rest => if str_eqb k k' then v else assoc k rest
  end.

(** Own enumerable properties, in [Object.keys] order. *)
Definition ownProps (v : jsval) : list (jsstring * jsval) :=
  match v with
  | VObject props => props
  | VArray items =>
      List.map (fun '(i, x) => (numberToString (Z.of_nat i), x))
               (combine (seq 0 (length items)) items)
  | VBuffer bytes =>
      List.map (fun '(i, b) => (numberToString (Z.of_nat i), VNumber (Z.of_N b)))
               (combine (seq 0 (length bytes)) bytes)
  | _ => []
  end.

(** [v[k]] *)
Definition getProp (v : jsval) (k : jsstring) : jsval := assoc k (ownProps v).

(** [Object.keys(v)] *)
Definition objectKeys (v : jsval) : list jsstring := List.map fst (ownProps v).

(** An optional numeric argument: omitted, [null], or a number. *)
Inductive numarg : Type :=
| ArgUndefined
| ArgNull
| ArgNumber (n : Z).

(** ** Security policy (config/security.js) *)

Module Security.

Definition MAX_ROWS_LIMIT : Z := 1000.
Definition CLOB_MAX_LENGTH : nat := 4000.
Definition BLOB_MAX_LENGTH : nat := 1024.

(** A [Set] of strings: its elements in insertion order, each once. *)
Definition newSet (items : list jsstring) : list jsstring :=
  fold_left (fun acc x => if bool_decide (x ∈ acc) then acc else acc ++ [x]) items [].

Definition setHas (s : list jsstring) (x : jsstring) : bool := bool_decide (x ∈ s).

Section WithRuntime.
Context `{JsRuntime}.

(** [env] is [process.env.ORACLE_TABLE_WHITELIST]: [None] when unset. *)
Definition getTableWhitelist (env : option jsstring) : option (list jsstring) :=
  match env with
  | None => None
  | Some whitelist =>
      if str_eqb whitelist [] || str_eqb (trim whitelist) [] then None
      else
        let tables :=
          List.filter (fun t => (0 <? length t)%nat)
            (List.map (fun t => toUpperCase (trim t)) (split_on 0x2C%N whitelist)) in
        Some (newSet tables)
  end.

Record access := { allowed : bool; access_message : option jsstring }.

Definition checkTableAccess (env : option jsstring) (tableName : jsstring) : access :=
  match getTableWhitelist env with
  | None => {| allowed := true; access_message := None |}
  | Some whitelist =>
      let upperTableName := toUpperCase tableName in
      if setHas whitelist upperTableName then
        {| allowed := true; access_message := None |}
      else
        {| allowed := false;
           access_message :=
             Some (js "表 " ++ tableName
                   ++ js " 不在允许访问的白名单中。允许的表: "
                   ++ join (js ", ") whitelist) |}
  end.

(** [defaultLimit = 100] stands in when the second argument is omitted. *)
Definition enforceRowLimit (requestedLimit : numarg) (defaultLimit : option Z) : Z :=
  let defaultLimit := default 100%Z defaultLimit in
  match requestedLimit with
  | ArgUndefined | ArgNull => Z.min defaultLimit MAX_ROWS_LIMIT
  | ArgNumber r => Z.min (Z.max 1 r) MAX_ROWS_LIMIT
  end.

Definition DML_ALLOWED_VERBS : list jsstring := [js "INSERT"; js "UPDATE"].

Definition DML_BLACKLIST_KEYWORDS : list jsstring :=
  [js "DELETE"; js "TRUNCATE"; js "DROP"; js "ALTER"; js "CREATE"; js "GRANT"; js "REVOKE"].

(** [new RegExp(`(^|\\s|\\()${keyword}(\\s|\\(|$)`, 'i')] *)
Definition dmlKeywordRegex (keyword : jsstring) : regex :=
  ReSeq (ReAlt ReBol (ReAlt reSpace reLParen))
    (ReSeq (ciLiteral keyword) (ReAlt reSpace (ReAlt reLParen ReEol))).

(** [/\bWHERE\b/i] *)
Definition whereRegex : regex :=
  ReSeq ReWordBoundary (ReSeq (ciLiteral (js "WHERE")) ReWordBoundary).

Record dml_validation := {
  dml_valid : bool;
  dml_error : option jsstring;
  dml_verb : option jsstring
}.

Definition validateDmlSql (sql : jsval) : dml_validation :=
  match sql with
  | VString sql =>
      if str_eqb sql [] then
        {| dml_valid := false; dml_error := Some (js "SQL 语句不能为空"); dml_verb := None |}
      else
        let trimmedSql := trim sql in
        let upperSql := toUpperCase trimmedSql in
        match List.find (fun verb => startsWith upperSql verb) DML_ALLOWED_VERBS with
        | None =>
            {| dml_valid := false;
               dml_error :=
                 Some (js "只允许执行 " ++ join (js "/") DML_ALLOWED_VERBS ++ js " 语句");
               dml_verb := None |}
        | Some matchedVerb =>
            match List.find (fun keyword => re_test (dmlKeywordRegex keyword) trimmedSql)
                    DML_BLACKLIST_KEYWORDS with
            | Some keyword =>
                {| dml_valid := false;
                   dml_error := Some (js "SQL 中包含禁止的关键字: " ++ keyword);
                   dml_verb := Some matchedVerb |}
            | None =>
                if str_eqb matchedVerb (js "UPDATE") && negb (re_test whereRegex trimmedSql)
                then
                  {| dml_valid := false;
                     dml_error :=
                       Some (js "UPDATE 语句必须包含 WHERE 子句，防止全表更新");
                     dml_verb := Some matchedVerb |}
                else
                  {| dml_valid := true; dml_error := None; dml_verb := Some matchedVerb |}
            end
        end
  | _ =>
      {| dml_valid := false; dml_error := Some (js "SQL 语句不能为空"); dml_verb := None |}
  end.

End WithRuntime.
End Security.
Export Security.

(** ** Error taxonomy (utils/errors.js) *)

Module Errors.

Module ErrorCode.
Definition CONNECTION_FAILED : Z := 101.
Definition AUTH_FAILED : Z := 102.
Definition TIMEOUT : Z := 103.
Definition CONFIG_NOT_FOUND : Z := 201.
Definition CONFIG_PARSE_ERROR : Z := 202.
Definition MISSING_REQUIRED_PARAM : Z := 203.
Definition TABLE_NOT_FOUND : Z := 301.
Definition SQL_SYNTAX_ERROR : Z := 302.
Definition QUERY_EXECUTION_ERROR : Z := 303.
Definition ACCESS_DENIED : Z := 304.
Definition FILE_EXISTS : Z := 401.
Definition WRITE_PERMISSION_DENIED : Z := 402.
Definition UNKNOWN : Z := 999.
End ErrorCode.

Module ExitCode.
Definition SUCCESS : Z := 0.
Definition CONNECTION_ERROR : Z := 1.
Definition CONFIG_ERROR : Z := 2.
Definition QUERY_ERROR : Z := 3.
Definition OUTPUT_ERROR : Z := 4.
Definition UNKNOWN_ERROR : Z := 99.
End ExitCode.

Definition getExitCode (errorCode : Z) : Z :=
  if ((100 <=? errorCode) && (errorCode <? 200))%Z then ExitCode.CONNECTION_ERROR
  else if ((200 <=? errorCode) && (errorCode <? 300))%Z then ExitCode.CONFIG_ERROR
  else if ((300 <=? errorCode) && (errorCode <? 400))%Z then ExitCode.QUERY_ERROR
  else if ((400 <=? errorCode) && (errorCode <? 500))%Z then ExitCode.OUTPUT_ERROR
  else ExitCode.UNKNOWN_ERROR.

Definition ErrorMessages : list (Z * jsstring) :=
  [ (ErrorCode.CONNECTION_FAILED, js "无法连接到数据库");
    (ErrorCode.AUTH_FAILED, js "数据库认证失败，请检查用户名和密码");
    (ErrorCode.TIMEOUT, js "连接超时，请检查网络或数据库服务状态");
    (ErrorCode.CONFIG_NOT_FOUND, js "配置文件未找到");
    (ErrorCode.CONFIG_PARSE_ERROR, js "配置文件解析错误");
    (ErrorCode.MISSING_REQUIRED_PARAM, js "缺少必填参数");
    (ErrorCode.TABLE_NOT_FOUND, js "表不存在");
    (ErrorCode.SQL_SYNTAX_ERROR, js "SQL 语法错误");
    (ErrorCode.QUERY_EXECUTION_ERROR, js "查询执行失败");
    (ErrorCode.ACCESS_DENIED, js "访问被拒绝，表不在允许的白名单中");
    (ErrorCode.FILE_EXISTS, js "文件已存在，使用 --force 覆盖");
    (ErrorCode.WRITE_PERMISSION_DENIED, js "没有写入权限");
    (ErrorCode.UNKNOWN, js "未知错误") ].

Fixpoint messageOf (code : Z) (table : list (Z * jsstring)) : option jsstring :=
  match table with
  | [] => None
  | (c, m) :: rest => if (c =? code)%Z then Some m else messageOf code rest
  end.

Record OracleMapError := {
  err_name : jsstring;
  err_code : Z;
  err_message : jsstring;
  err_details : list (jsstring * jsstring);
  err_exitCode : Z
}.

(** [new OracleMapError(code, message, details)] *)
Definition newOracleMapError (code : Z) (message : option jsstring)
    (details : list (jsstring * jsstring)) : OracleMapError :=
  let defaultMessage :=
    default (js "未知错误") (messageOf code ErrorMessages) in
  {| err_name := js "OracleMapError";
     err_code := code;
     err_message :=
       match message with
       | Some m => if str_eqb m [] then defaultMessage else m
       | None => defaultMessage
       end;
     err_details := details;
     err_exitCode := getExitCode code |}.

(** What a [throw] carries: an error object of the driver or the runtime,
    whose [message] may be missing, or an error of the taxonomy. *)
Inductive exn : Type :=
| NativeError (message : option jsstring)
| Classified (e : OracleMapError).

Definition exnMessage (e : exn) : option jsstring :=
  match e with
  | NativeError m => m
  | Classified e => Some (err_message e)
  end.

(** [error.message || ''] *)
Definition messageOrEmpty (e : exn) : jsstring := default [] (exnMessage e).

End Errors.
Export Errors.

(** ** The database driver and the effects of the engine

    The driver (oracledb) is outside the sources: it is an interface whose
    calls may succeed or throw, acting on a state of its own.  The engine's
    asynchronous functions are computations over that state which also keep
    the list of driver calls they issued, in order. *)

Definition conn := N.

Record ExecOptions := { autoCommit : option bool }.
Record ExecResult := { rowsAffected : option Z }.

(** A bind value as handed to the driver; [new Date(x)] and
    [JSON.stringify(x)] are kept as the runtime calls they are. *)
Inductive bindval : Type :=
| BindNull
| BindValue (v : jsval)
| BindNewDate (arg : jsval)
| BindJsonStringify (v : jsval).

Definition binds := list (jsstring * bindval).

Class Driver : Type := {
  world : Type;
  pool_getConnection : world -> (exn + conn) * world;
  conn_execute :
    conn -> jsstring -> binds -> option ExecOptions -> world -> (exn + ExecResult) * world;
  conn_close : conn -> world -> (exn + unit) * world;
  date_now : world -> Z * world
}.

Inductive call : Type :=
| CallGetConnection
| CallExecute (c : conn) (sql : jsstring) (b : binds) (o : option ExecOptions)
| CallClose (c : conn)
| CallConsoleError (text : jsstring).

Module Eff.
Section WithDriver.
Context `{Driver}.

Definition state : Type := world * list call.

Definition M (A : Type) : Type := state -> (exn + A) * state.

Definition ret {A} (a : A) : M A := fun s => (inr a, s).

Definition bind {A B} (m : M A) (k : A -> M B) : M B :=
  fun s => match m s with
           | (inr a, s') => k a s'
           | (inl e, s') => (inl e, s')
           end.

Definition throw {A} (e : exn) : M A := fun s => (inl e, s).

(** [try { m } catch (e) { h e }] *)
Definition tryCatch {A} (m : M A) (h : exn -> M A) : M A :=
  fun s => match m s with
           | (inl e, s') => h e s'
           | r => r
           end.

Definition perform {A} (c : call) (f : world -> (exn + A) * world) : M A :=
  fun s => let '(r, w') := f (fst s) in (r, (w', snd s ++ [c])).

Definition getConnection_ : M conn := perform CallGetConnection pool_getConnection.

Definition execute (c : conn) (sql : jsstring) (b : binds) (o : option ExecOptions)
  : M ExecResult := perform (CallExecute c sql b o) (conn_execute c sql b o).

Definition close (c : conn) : M unit := perform (CallClose c) (conn_close c).

Definition consoleError (text : jsstring) : M unit :=
  fun s => (inr tt, (fst s, snd s ++ [CallConsoleError text])).

Definition now : M Z :=
  fun s => let '(t, w') := date_now (fst s) in (inr t, (w', snd s)).

End WithDriver.
End Eff.

#[global] Instance eff_bind `{Driver} : MBind Eff.M := fun _ _ k m => Eff.bind m k.
#[global] Instance eff_ret `{Driver} : MRet Eff.M := fun _ a => Eff.ret a.

(** ** Connection manager (db/connection.js) *)

Module ConnectionManager.
Section WithDriver.
Context `{Driver}.

(** [handleConnectionError(error)] *)
Definition handleConnectionError (error : exn) : OracleMapError :=
  let oraError := messageOrEmpty error in
  if includes oraError (js "ORA-01017") || includes oraError (js "invalid username/password")
  then
    newOracleMapError ErrorCode.AUTH_FAILED
      (Some (js "数据库认证失败，请检查用户名和密码"))
      [(js "oracleError", oraError)]
  else if includes oraError (js "ORA-12170") || includes oraError (js "TNS:Connect timeout")
  then
    newOracleMapError ErrorCode.TIMEOUT
      (Some (js "连接超时，请检查网络或数据库服务状态"))
      [(js "oracleError", oraError);
       (js "suggestion", js "请确认数据库主机和端口是否正确，网络是否可达")]
  else if includes oraError (js "ORA-12541") || includes oraError (js "TNS:no listener")
  then
    newOracleMapError ErrorCode.CONNECTION_FAILED
      (Some (js "无法连接到数据库监听器"))
      [(js "oracleError", oraError);
       (js "suggestion", js "请确认 Oracle 监听器是否启动")]
  else if includes oraError (js "ORA-12514")
          || includes oraError (js "TNS:listener does not currently know of service")
  then
    newOracleMapError ErrorCode.CONNECTION_FAILED
      (Some (js "服务名不存在"))
      [(js "oracleError", oraError);
       (js "suggestion", js "请检查服务名是否正确")]
  else
    newOracleMapError ErrorCode.CONNECTION_FAILED
      (Some (js "数据库连接失败: " ++ oraError))
      [(js "oracleError", oraError)].

Definition PING_SQL : jsstring := js "SELECT 1 FROM DUAL".

(** [pingError.message] as [console.error] prints it. *)
Definition printed (m : option jsstring) : jsstring := default (js "undefined") m.

(** [getConnection()]; [pool] tells whether [this.pool] is set. *)
Definition getConnection (pool : bool) : Eff.M conn :=
  if negb pool then
    Eff.throw (Classified (newOracleMapError ErrorCode.CONNECTION_FAILED
                 (Some (js "连接池未初始化，请先调用 createPool()")) []))
  else
    Eff.tryCatch
      (conn ← Eff.getConnection_;
       retried ←
         Eff.tryCatch
           (Eff.execute conn PING_SQL [] None;;
            mret None)
           (fun pingError =>
              Eff.consoleError
                (js "[oracle-mcp-server] 连接 ping 失败，重新获取连接: "
                 ++ printed (exnMessage pingError));;
              Eff.tryCatch (Eff.close conn) (fun _ => mret tt);;
              again ← Eff.getConnection_;
              mret (Some again));
       match retried with
       | Some again => mret again
       | None => mret conn
       end)
      (fun error => Eff.throw (Classified (handleConnectionError error))).

End WithDriver.
End ConnectionManager.
Export ConnectionManager.

(** ** Query executor (query/executor.js) *)

Module Executor.

(** [x !== undefined && x !== null && x > 0] *)
Definition positiveArg (x : numarg) : option Z :=
  match x with
  | ArgNumber n => if (0 <? n)%Z then Some n else None
  | ArgUndefined | ArgNull => None
  end.

Definition buildPaginatedSql (baseSql : jsstring) (limit offset : numarg) : jsstring :=
  let sql := trim baseSql in
  let sql := if endsWith sql (js ";") then slice_drop_last sql else sql in
  let parts : list jsstring := [] in
  let parts :=
    match positiveArg offset with
    | Some o => parts ++ [js "OFFSET " ++ numberToString o ++ js " ROWS"]
    | None => parts
    end in
  let parts :=
    match positiveArg limit with
    | Some l =>
        let parts := if (length parts =? 0)%nat then parts ++ [js "OFFSET 0 ROWS"] else parts in
        parts ++ [js "FETCH NEXT " ++ numberToString l ++ js " ROWS ONLY"]
    | None => parts
    end in
  if (0 <? length parts)%nat then sql ++ js " " ++ join (js " ") parts else sql.

Definition dangerousKeywords : list jsstring :=
  [js "DROP"; js "DELETE"; js "UPDATE"; js "INSERT"; js "TRUNCATE"; js "ALTER"; js "CREATE"].

(** [new RegExp(`(^|\\s)${keyword}(\\s|$)`, 'i')] *)
Definition readKeywordRegex (keyword : jsstring) : regex :=
  ReSeq (ReAlt ReBol reSpace) (ReSeq (ciLiteral keyword) (ReAlt reSpace ReEol)).

Record validation := { valid : bool; error : option jsstring }.

Section WithRuntime.
Context `{JsRuntime}.

Definition buildTableQuerySql (tableName : jsstring) (limit offset : numarg) : jsstring :=
  buildPaginatedSql (js "SELECT * FROM " ++ toUpperCase tableName) limit offset.

Definition validateSql (sql : jsval) : validation :=
  match sql with
  | VString sql =>
      if str_eqb sql [] then {| valid := false; error := Some (js "SQL 语句不能为空") |}
      else
        let trimmedSql := toUpperCase (trim sql) in
        if negb (startsWith trimmedSql (js "SELECT")) then
          {| valid := false; error := Some (js "只支持 SELECT 查询语句") |}
        else
          match List.find (fun keyword => re_test (readKeywordRegex keyword) sql)
                  dangerousKeywords with
          | Some keyword =>
              {| valid := false;
                 error := Some (js "不允许使用 " ++ keyword ++ js " 关键字") |}
          | None => {| valid := true; error := None |}
          end
  | _ => {| valid := false; error := Some (js "SQL 语句不能为空") |}
  end.

(** [handleDmlError(error, sql)] *)
Definition handleDmlError (error : exn) (sql : jsstring) : OracleMapError :=
  let oraError := messageOrEmpty error in
  let details := [(js "oracleError", oraError); (js "sql", sql)] in
  if includes oraError (js "ORA-00942") then
    newOracleMapError ErrorCode.TABLE_NOT_FOUND (Some (js "表或视图不存在")) details
  else if includes oraError (js "ORA-00904") then
    newOracleMapError ErrorCode.SQL_SYNTAX_ERROR (Some (js "无效的列名或标识符")) details
  else if includes oraError (js "ORA-01400") then
    newOracleMapError ErrorCode.SQL_SYNTAX_ERROR (Some (js "必填字段不能为空")) details
  else if includes oraError (js "ORA-00001") then
    newOracleMapError ErrorCode.SQL_SYNTAX_ERROR (Some (js "违反唯一约束，数据已存在")) details
  else if includes oraError (js "ORA-02291") then
    newOracleMapError ErrorCode.SQL_SYNTAX_ERROR
      (Some (js "违反外键约束，引用的数据不存在")) details
  else
    newOracleMapError ErrorCode.QUERY_EXECUTION_ERROR
      (Some (js "DML 执行失败: " ++ oraError)) details.

Definition SQL_EXPRESSION_MARKERS : list jsstring :=
  [js "SYSDATE"; js "SYSTIMESTAMP"; js "NULL"; js "CURRENT_DATE"; js "CURRENT_TIMESTAMP"].

Record processed := {
  p_value : bindval;
  isExpression : bool;
  expression : option jsstring
}.

Definition plain (b : bindval) : processed :=
  {| p_value := b; isExpression := false; expression := None |}.

Definition asExpression (e : jsstring) : processed :=
  {| p_value := BindNull; isExpression := true; expression := Some e |}.

(** [processInsertValue(value, columnName)] *)
Definition processInsertValue (value : jsval) : exn + processed :=
  match value with
  | VNull | VUndefined => inr (plain BindNull)
  | VString s =>
      let upperValue := toUpperCase (trim s) in
      if bool_decide (upperValue ∈ SQL_EXPRESSION_MARKERS) then inr (asExpression upperValue)
      else inr (plain (BindValue value))
  | VDate _ | VBuffer _ | VArray _ | VObject _ =>
      if truthy (getProp value (js "$date")) then
        inr (plain (BindNewDate (getProp value (js "$date"))))
      else if truthy (getProp value (js "$expr")) then
        match getProp value (js "$expr") with
        | VString e =>
            let expr := toUpperCase (trim e) in
            if bool_decide (expr ∈ SQL_EXPRESSION_MARKERS) then inr (asExpression expr)
            else
              inl (Classified (newOracleMapError ErrorCode.SQL_SYNTAX_ERROR
                     (Some (js "不支持的 SQL 表达式: " ++ e ++ js "，允许的表达式: "
                            ++ join (js ", ") SQL_EXPRESSION_MARKERS)) []))
        | _ => inl (NativeError (Some (js "value.$expr.trim is not a function")))
        end
      else if truthy (getProp value (js "$timestamp")) then
        inr (plain (BindNewDate (getProp value (js "$timestamp"))))
      else inr (plain (BindJsonStringify value))
  | VBool _ | VNumber _ => inr (plain (BindValue value))
  end.

(** The loop of [insertRecord] over the columns: placeholders and binds. *)
Fixpoint collectBinds (data : jsval) (columns : list jsstring)
    (placeholders : list jsstring) (bindValues : binds)
  : exn + (list jsstring * binds) :=
  match columns with
  | [] => inr (placeholders, bindValues)
  | col :: rest =>
      match processInsertValue (getProp data col) with
      | inl e => inl e
      | inr p =>
          if isExpression p then
            collectBinds data rest (placeholders ++ [default [] (expression p)]) bindValues
          else
            collectBinds data rest (placeholders ++ [js ":" ++ col])
              (bindValues ++ [(col, p_value p)])
      end
  end.

Context `{Driver}.

Record dml_result := {
  dml_success : bool;
  dml_result_verb : option jsstring;
  dml_rowsAffected : Z;
  dml_executionTime : Z;
  dml_sql : jsstring
}.

(** [executeDml(conn, sql, options)] with [binds] the [options.binds]. *)
Definition executeDml (conn : conn) (sql : jsval) (binds : binds) : Eff.M dml_result :=
  let validation := validateDmlSql sql in
  if negb (dml_valid validation) then
    Eff.throw (Classified (newOracleMapError ErrorCode.SQL_SYNTAX_ERROR
                 (dml_error validation) []))
  else
    let sql := match sql with VString s => s | _ => [] end in
    startTime ← Eff.now;
    Eff.tryCatch
      (result ← Eff.execute conn sql binds (Some {| autoCommit := Some false |});
       Eff.execute conn (js "COMMIT") [] None;;
       finish ← Eff.now;
       mret {| dml_success := true;
               dml_result_verb := dml_verb validation;
               dml_rowsAffected := default 0%Z (rowsAffected result);
               dml_executionTime := (finish - startTime)%Z;
               dml_sql := sql |})
      (fun error =>
         Eff.tryCatch (Eff.execute conn (js "ROLLBACK") [] None;; mret tt)
                      (fun _ => mret tt);;
         Eff.throw (Classified (handleDmlError error sql))).

Record insert_result := {
  ins_success : bool;
  ins_table : jsstring;
  ins_rowsAffected : Z;
  ins_executionTime : Z;
  ins_columns : list jsstring;
  ins_sql : jsstring
}.

(** [insertRecord(conn, tableName, data)]; [env] is the whitelist variable. *)
Definition insertRecord (env : option jsstring) (conn : conn) (tableName : jsstring)
    (data : jsval) : Eff.M insert_result :=
  let access := checkTableAccess env tableName in
  if negb (allowed access) then
    Eff.throw (Classified (newOracleMapError ErrorCode.ACCESS_DENIED (access_message access) []))
  else if negb (truthy data) || negb (typeofObject data) || isArray data then
    Eff.throw (Classified (newOracleMapError ErrorCode.SQL_SYNTAX_ERROR
                 (Some (js "data 参数必须是非空的 JSON 对象")) []))
  else
    let columns := objectKeys data in
    if (length columns =? 0)%nat then
      Eff.throw (Classified (newOracleMapError ErrorCode.SQL_SYNTAX_ERROR
                   (Some (js "data 对象不能为空")) []))
    else
      match collectBinds data columns [] [] with
      | inl e => Eff.throw e
      | inr (placeholders, bindValues) =>
          let sql :=
            js "INSERT INTO " ++ toUpperCase tableName ++ js " ("
            ++ join (js ", ") columns ++ js ") VALUES ("
            ++ join (js ", ") placeholders ++ js ")" in
          startTime ← Eff.now;
          Eff.tryCatch
            (result ← Eff.execute conn sql bindValues (Some {| autoCommit := Some true |});
             finish ← Eff.now;
             mret {| ins_success := true;
                     ins_table := toUpperCase tableName;
                     ins_rowsAffected := default 0%Z (rowsAffected result);
                     ins_executionTime := (finish - startTime)%Z;
                     ins_columns := columns;
                     ins_sql := sql |})
            (fun error => Eff.throw (Classified (handleDmlError error sql)))
      end.

End WithRuntime.
End Executor.
Export Executor.

(** ** Result mapper (mapper/data.js) *)

Module Mapper.

Definition LOB_CLOB_MAX_LENGTH : nat := 4000.
Definition LOB_BLOB_MAX_LENGTH : nat := 1024.
Definition TRUNCATE_SUFFIX : jsstring := js "... [已截断]".

Definition truncateString (str : jsstring) (maxLength : nat) : jsstring :=
  if (length str <=? maxLength)%nat then str
  else substring0 str maxLength ++ TRUNCATE_SUFFIX.

(** [buf.toString('base64')] *)
Definition b64char (n : N) : codeunit :=
  (if n <? 26 then 0x41 + n
   else if n <? 52 then 0x61 + (n - 26)
   else if n <? 62 then 0x30 + (n - 52)
   else if n =? 62 then 0x2B else 0x2F)%N.

Fixpoint base64 (bytes : list N) : jsstring :=
  match bytes with
  | [] => []
  | [a] =>
      [b64char (N.shiftr a 2); b64char (N.shiftl (N.land a 3) 4); 0x3D; 0x3D]%N
  | [a; b] =>
      [b64char (N.shiftr a 2);
       b64char (N.lor (N.shiftl (N.land a 3) 4) (N.shiftr b 4));
       b64char (N.shiftl (N.land b 15) 2); 0x3D]%N
  | a :: b :: c :: rest =>
      [b64char (N.shiftr a 2);
       b64char (N.lor (N.shiftl (N.land a 3) 4) (N.shiftr b 4));
       b64char (N.lor (N.shiftl (N.land b 15) 2) (N.shiftr c 6));
       b64char (N.land c 63)] ++ base64 rest
  end.

Section WithRuntime.
Context `{JsRuntime}.

(** [dateToIso(date)] on a [Date]. *)
Definition dateToIso (t : option Z) : jsval :=
  match t with
  | None => VNull
  | Some ms => VString (toISOString ms)
  end.

(** [mapValue(value, oracleType)]; [oracleType] is [None] when omitted. *)
Definition mapValue (value : jsval) (oracleType : option jsstring) : jsval :=
  match value with
  | VNull | VUndefined => VNull
  | _ =>
      let upperType := toUpperCase (default [] oracleType) in
      let isDateType :=
        startsWith upperType (js "DATE") || startsWith upperType (js "TIMESTAMP") in
      let isClobType :=
        str_eqb upperType (js "CLOB") || str_eqb upperType (js "NCLOB")
        || str_eqb upperType (js "LONG") in
      let isBlobType :=
        str_eqb upperType (js "BLOB") || str_eqb upperType (js "RAW")
        || str_eqb upperType (js "LONG RAW") in
      match value with
      | VDate t =>
          if isDateType then dateToIso t else value
      | VString s =>
          if isClobType then VString (truncateString s LOB_CLOB_MAX_LENGTH)
          else if isBlobType && (LOB_BLOB_MAX_LENGTH * 2 <? length s)%nat then
            VString (substring0 s (LOB_BLOB_MAX_LENGTH * 2) ++ TRUNCATE_SUFFIX)
          else if (LOB_CLOB_MAX_LENGTH <? length s)%nat then
            VString (truncateString s LOB_CLOB_MAX_LENGTH)
          else value
      | VBuffer bytes =>
          let truncatedBuffer :=
            if (LOB_BLOB_MAX_LENGTH <? length bytes)%nat
            then firstn LOB_BLOB_MAX_LENGTH bytes else bytes in
          let base64 := base64 truncatedBuffer in
          if (LOB_BLOB_MAX_LENGTH <? length bytes)%nat
          then VString (base64 ++ TRUNCATE_SUFFIX)
          else VString base64
      | _ => value
      end
  end.

(** A column descriptor as [mapRow] accepts it: an object with the fields
    it reads, or a bare column name. *)
Inductive column : Type :=
| ColumnInfo (name oracleType dbType : option jsstring)
| ColumnName (name : jsstring).

(** [a || b] on optional strings: the empty string is falsy too. *)
Definition orElse (a : option jsstring) (b : option jsstring) : option jsstring :=
  match a with
  | Some s => if str_eqb s [] then b else a
  | None => b
  end.

(** [column.name || column] as the property key it is used as. *)
Definition columnName (c : column) : jsstring :=
  match c with
  | ColumnInfo name _ _ => default (js "[object Object]") (orElse name None)
  | ColumnName name => name
  end.

(** [column.oracleType || column.dbType || ''] *)
Definition columnType (c : column) : option jsstring :=
  match c with
  | ColumnInfo _ oracleType dbType => orElse (orElse oracleType dbType) (Some [])
  | ColumnName _ => Some []
  end.

(** A driver row: an object keyed by column name or an array of cells. *)
Inductive row : Type :=
| RowObject (cells : gmap jsstring jsval)
| RowArray (cells : list jsval).

(** [row[columnName]] and [row[i]]: a missing entry reads [undefined]. *)
Definition cellByName (cells : gmap jsstring jsval) (k : jsstring) : jsval :=
  default VUndefined (cells !! k).

Definition cellByIndex (cells : list jsval) (i : nat) : jsval :=
  default VUndefined (cells !! i).

(** The loop of the array branch, from index [i] on. *)
Fixpoint mapArrayFrom (cells : list jsval) (i : nat) (columns : list column)
    (result : gmap jsstring jsval) : gmap jsstring jsval :=
  match columns with
  | [] => result
  | column :: rest =>
      mapArrayFrom cells (S i) rest
        (<[columnName column := mapValue (cellByIndex cells i) (columnType column)]> result)
  end.

Definition mapRow (row : row) (columns : list column) : gmap jsstring jsval :=
  match row with
  | RowObject cells =>
      fold_left
        (fun result column =>
           <[columnName column := mapValue (cellByName cells (columnName column))
                                           (columnType column)]> result)
        columns ∅
  | RowArray cells => mapArrayFrom cells 0 columns ∅
  end.

Definition mapRows (rows : list row) (columns : list column) : list (gmap jsstring jsval) :=
  List.map (fun row => mapRow row columns) rows.

End WithRuntime.
End Mapper.
Export Mapper.

(** ** A runtime instance

    ASCII upper-casing that leaves every other code unit alone, and the ISO
    rendering of a time value by the proleptic Gregorian calendar. *)

Definition pad (width : nat) (z : Z) : jsstring :=
  let digits := numberToString z in
  repeat 0x30%N (width - length digits) ++ digits.

(** Civil date of a day count since 1970-01-01. *)
Definition civilFromDays (days : Z) : Z * Z * Z :=
  let z := (days + 719468)%Z in
  let era := (z / 146097)%Z in
  let doe := (z - era * 146097)%Z in
  let yoe := ((doe - doe / 1460 + doe / 36524 - doe / 146096) / 365)%Z in
  let doy := (doe - (365 * yoe + yoe / 4 - yoe / 100))%Z in
  let mp := ((5 * doy + 2) / 153)%Z in
  let d := (doy - (153 * mp + 2) / 5 + 1)%Z in
  let m := (if mp <? 10 then mp + 3 else mp - 9)%Z in
  let y := (yoe + era * 400 + (if m <=? 2 then 1 else 0))%Z in
  (y, m, d).

Definition isoOfTime (ms : Z) : jsstring :=
  let days := (ms / 86400000)%Z in
  let rest := (ms mod 86400000)%Z in
  let '(y, m, d) := civilFromDays days in
  let year :=
    if ((0 <=? y) && (y <=? 9999))%Z then pad 4 y
    else if (y <? 0)%Z then js "-" ++ pad 6 (- y) else js "+" ++ pad 6 y in
  year ++ js "-" ++ pad 2 m ++ js "-" ++ pad 2 d ++ js "T"
  ++ pad 2 (rest / 3600000) ++ js ":" ++ pad 2 (rest / 60000 mod 60) ++ js ":"
  ++ pad 2 (rest / 1000 mod 60) ++ js "." ++ pad 3 (rest mod 1000) ++ js "Z".

#[global] Instance asciiRuntime : JsRuntime := {|
  toUpperCase := List.map asciiUpper;
  toISOString := isoOfTime;
  toUpperCase_ascii := fun s _ => eq_refl
|}.


(** ** More of the engine

    Functions of the same files that the callers above rely on. *)

Module Schema.

(** [TYPE_MAPPING]: own properties only; its keys are looked up after
    upper-casing, which no inherited property name survives. *)
Definition TYPE_MAPPING : list (jsstring * jsstring) :=
  [ (js "VARCHAR2", js "string"); (js "VARCHAR", js "string"); (js "CHAR", js "string");
    (js "NVARCHAR2", js "string"); (js "NCHAR", js "string"); (js "LONG", js "string");
    (js "CLOB", js "string"); (js "NCLOB", js "string");
    (js "NUMBER", js "number"); (js "INTEGER", js "number"); (js "INT", js "number");
    (js "SMALLINT", js "number"); (js "FLOAT", js "number"); (js "REAL", js "number");
    (js "DOUBLE PRECISION", js "number"); (js "BINARY_FLOAT", js "number");
    (js "BINARY_DOUBLE", js "number");
    (js "DATE", js "Date"); (js "TIMESTAMP", js "Date");
    (js "TIMESTAMP WITH TIME ZONE", js "Date");
    (js "TIMESTAMP WITH LOCAL TIME ZONE", js "Date");
    (js "BLOB", js "Buffer"); (js "RAW", js "Buffer"); (js "LONG RAW", js "Buffer");
    (js "BFILE", js "Buffer");
    (js "ROWID", js "string"); (js "UROWID", js "string"); (js "XMLTYPE", js "string");
    (js "JSON", js "object") ].

Definition VALID_JS_TYPES : list jsstring :=
  newSet [js "string"; js "number"; js "Date"; js "Buffer"; js "boolean"; js "object"].

Fixpoint lookupType (key : jsstring) (table : list (jsstring * jsstring)) : option jsstring :=
  match table with
  | [] => None
  | (k, v) :: rest => if str_eqb key k then Some v else lookupType key rest
  end.

Section WithRuntime.
Context `{JsRuntime}.

(** [mapOracleType(oracleType)]; [None] is [null] or [undefined]. *)
Definition mapOracleType (oracleType : option jsstring) : jsstring :=
  match oracleType with
  | None => js "object"
  | Some oracleType =>
      if str_eqb oracleType [] then js "object"
      else
        let baseType := trim (hd [] (split_on 0x28%N (toUpperCase oracleType))) in
        if startsWith baseType (js "TIMESTAMP") then js "Date"
        else
          match lookupType baseType TYPE_MAPPING with
          | Some jsType => if str_eqb jsType [] then js "object" else jsType
          | None => js "object"
          end
  end.

Definition isValidJsType (jsType : jsstring) : bool := setHas VALID_JS_TYPES jsType.

End WithRuntime.
End Schema.
Export Schema.

Module Release.
Section WithDriver.
Context `{Driver}.

(** [releaseConnection(connection)]; [None] is a missing connection. *)
Definition releaseConnection (connection : option conn) : Eff.M unit :=
  match connection with
  | Some connection =>
      Eff.tryCatch (Eff.close connection)
        (fun error =>
           Eff.consoleError (js "释放连接失败: " ++ printed (exnMessage error)))
  | None => mret tt
  end.

End WithDriver.
End Release.
Export Release.

Module QueryCalls.

(** [handleQueryError(error, sql)] *)
Definition handleQueryError (error : exn) (sql : jsstring) : OracleMapError :=
  let oraError := messageOrEmpty error in
  let details := [(js "oracleError", oraError); (js "sql", sql)] in
  if includes oraError (js "ORA-00942") then
    newOracleMapError ErrorCode.TABLE_NOT_FOUND (Some (js "表或视图不存在")) details
  else if includes oraError (js "ORA-00904") then
    newOracleMapError ErrorCode.SQL_SYNTAX_ERROR (Some (js "无效的列名或标识符")) details
  else if includes oraError (js "ORA-00933") then
    newOracleMapError ErrorCode.SQL_SYNTAX_ERROR (Some (js "SQL 语法错误")) details
  else
    newOracleMapError ErrorCode.QUERY_EXECUTION_ERROR
      (Some (js "查询执行失败: " ++ oraError)) details.

(** The [catch] of [executeQuery]: whatever its [try] block throws is
    thrown again classified, with the statement that was sent. *)
Definition executeQueryCatch (error : exn) (paginatedSql : jsstring) : exn :=
  Classified (handleQueryError error paginatedSql).

(** The [catch] of [queryTable] around its [executeQuery]. *)
Definition queryTableCatch (tableName : jsstring) (error : exn) : exn :=
  if includes (messageOrEmpty error) (js "ORA-00942") then
    Classified (newOracleMapError ErrorCode.TABLE_NOT_FOUND
      (Some (js "表 " ++ tableName ++ js " 不存在或无权访问"))
      [(js "suggestion", js "请检查表名是否正确，注意 Oracle 表名默认为大写")])
  else error.

Section WithRuntime.
Context `{JsRuntime}.

(** What [executeQuery] hands to [conn.execute]: the statement text and the
    [maxRows] option; [q_warned] tells whether the result will carry the
    over-the-limit warning. *)
Record query_call := {
  q_sql : jsstring;
  q_maxRows : Z;
  q_warned : bool
}.

(** [limit > MAX_ROWS_LIMIT] *)
Definition overLimit (limit : numarg) : bool :=
  match limit with
  | ArgNumber n => (MAX_ROWS_LIMIT <? n)%Z
  | ArgUndefined | ArgNull => false
  end.

(** [executeQuery(conn, sql, { limit, offset })] up to its call of the
    driver: the error thrown by the validation, or the call it makes. *)
Definition executeQueryCall (sql : jsval) (limit offset : numarg) : exn + query_call :=
  let validation := validateSql sql in
  if negb (valid validation) then
    inl (Classified (newOracleMapError ErrorCode.SQL_SYNTAX_ERROR (error validation) []))
  else
    let text := match sql with VString s => s | _ => [] end in
    let safeLimit := enforceRowLimit limit None in
    let paginatedSql := buildPaginatedSql text (ArgNumber safeLimit) offset in
    inr {| q_sql := paginatedSql; q_maxRows := safeLimit; q_warned := overLimit limit |}.

(** [queryTable(conn, tableName, { limit, offset })] up to the call of the
    driver that its [executeQuery] makes. *)
Definition queryTableCall (env : option jsstring) (tableName : jsstring)
    (limit offset : numarg) : exn + query_call :=
  let access := checkTableAccess env tableName in
  if negb (allowed access) then
    inl (Classified (newOracleMapError ErrorCode.ACCESS_DENIED (access_message access) []))
  else
    let safeLimit := enforceRowLimit limit None in
    let sql := buildTableQuerySql tableName (ArgNumber safeLimit) offset in
    match executeQueryCall (VString sql) ArgUndefined ArgUndefined with
    | inl error => inl (queryTableCatch tableName error)
    | inr call => inr call
    end.

End WithRuntime.
End QueryCalls.
Export QueryCalls.

(** ** Tool handlers (mcp/server.js)

    The two write tools.  A handler answers with the JSON text of an
    object; the object is kept here as it is handed to [JSON.stringify]. *)

Module Server.
Section WithDriver.
Context `{JsRuntime} `{Driver}.

(** [try { body } finally { finalizer }] *)
Definition tryFinally {A} (body : Eff.M A) (finalizer : Eff.M unit) : Eff.M A :=
  fun s =>
    let '(r, s1) := body s in
    match finalizer s1 with
    | (inl e, s2) => (inl e, s2)
    | (inr _, s2) => (r, s2)
    end.

(** [checkConnection()] *)
Definition checkConnection (isConnected : bool) : Eff.M unit :=
  if negb isConnected then
    Eff.throw (NativeError (Some (js "未连接到数据库，请先使用 oracle_connect 连接")))
  else mret tt.

(** [handleExecuteDml(args)]: the object serialised has the five fields of
    the result of [executeDml]. *)
Definition handleExecuteDml (isConnected pool : bool) (sql : jsval) : Eff.M dml_result :=
  checkConnection isConnected;;
  conn ← getConnection pool;
  tryFinally (executeDml conn sql []) (releaseConnection (Some conn)).

Record insert_answer := {
  ans_success : bool;
  ans_table : jsstring;
  ans_rowsAffected : Z;
  ans_columns : list jsstring;
  ans_executionTime : Z
}.

(** [handleInsertRecord(args)] *)
Definition handleInsertRecord (env : option jsstring) (isConnected pool : bool)
    (table : jsstring) (data : jsval) : Eff.M insert_answer :=
  checkConnection isConnected;;
  conn ← getConnection pool;
  tryFinally
    (result ← insertRecord env conn table data;
     mret {| ans_success := ins_success result;
             ans_table := ins_table result;
             ans_rowsAffected := ins_rowsAffected result;
             ans_columns := ins_columns result;
             ans_executionTime := ins_executionTime result |})
    (releaseConnection (Some conn)).

(** What a tool call answers: the serialised object, or an error text with
    [isError] set. *)
Inductive tool_answer (A : Type) : Type :=
| ToolJson (payload : A)
| ToolError (text : jsstring).

(** The [try]/[catch] of the tool dispatcher around a handler. *)
Definition callTool {A} (handler : Eff.M A) : Eff.M (tool_answer A) :=
  Eff.tryCatch
    (result ← handler; mret (ToolJson A result))
    (fun error => mret (ToolError A (js "错误: " ++ printed (exnMessage error)))).

End WithDriver.
End Server.
Export Server.
(** * Vocabulary of the properties *)

(** ** Keywords as standalone tokens *)

(** [w] spells the keyword [kw] up to ASCII case. *)
Definition ciEq (w kw : jsstring) : Prop :=
  List.map asciiUpper w = List.map asciiUpper kw.

(** A delimiter test that also accepts the edge of the text. *)
Definition edgeOr (f : codeunit -> bool) (o : option codeunit) : bool :=
  match o with None => true | Some c => f c end.

(** [kw] occurs in [s], in any case, between a code unit (or edge) that
    [left] accepts and one that [right] accepts. *)
Definition occursBetween (left right : option codeunit -> bool) (kw s : jsstring) : Prop :=
  exists pre w post,
    s = pre ++ w ++ post /\ ciEq w kw
    /\ left (last pre) = true /\ right (head post) = true.

Definition isSpaceOrParen (c : codeunit) : bool := isWhiteSpace c || cu_eqb c 0x28%N.

(** Standalone for the read validator: white space or the edge on both sides. *)
Definition standaloneRead (kw s : jsstring) : Prop :=
  occursBetween (edgeOr isWhiteSpace) (edgeOr isWhiteSpace) kw s.

(** Standalone for the DML blacklist: white space, an opening parenthesis or
    the edge on both sides. *)
Definition standaloneDml (kw s : jsstring) : Prop :=
  occursBetween (edgeOr isSpaceOrParen) (edgeOr isSpaceOrParen) kw s.

(** Standalone as a word: no word character on either side. *)
Definition standaloneWord (kw s : jsstring) : Prop :=
  occursBetween (fun o => negb (isWordAt o)) (fun o => negb (isWordAt o)) kw s.

(** The position reached after reading [w] from a position preceded by [prev]. *)
Definition afterOf (prev : option codeunit) (w : jsstring) : option codeunit :=
  match last w with Some c => Some c | None => prev end.


(** ** Statements and arguments *)


(** An UPDATE statement, as the validator decides it: the trimmed text starts
    with UPDATE once upper-cased. *)
Definition isUpdateStatement `{JsRuntime} (sql : jsstring) : Prop :=
  startsWith (toUpperCase (trim sql)) (js "UPDATE") = true.

(** No keyword of the DML blacklist stands alone in the statement. *)
Definition noBlacklistedKeyword (sql : jsstring) : Prop :=
  forall kw, In kw DML_BLACKLIST_KEYWORDS -> ~ standaloneDml kw sql.

(** The statement terminator [buildPaginatedSql] strips: one trailing [;]
    of the trimmed text, when there is one. *)
Definition strippedOf (baseSql body : jsstring) : Prop :=
  (endsWith (trim baseSql) (js ";") = false /\ body = trim baseSql)
  \/ trim baseSql = body ++ js ";".

(** Neither a positive offset nor a positive limit: omitted, null, or a
    number that is not above zero. *)
Definition notPositive (x : numarg) : Prop :=
  x = ArgUndefined \/ x = ArgNull \/ exists n, x = ArgNumber n /\ (n <= 0)%Z.


(** The whitelist variable holds no identifier: every piece between commas
    is empty once trimmed. *)
Definition noIdentifier (whitelist : jsstring) : Prop :=
  Forall (fun t => trim t = []) (split_on 0x2C%N whitelist).

(** The Oracle type names the mapper treats as long text and as binary,
    compared after upper-casing; [None] is an omitted type. *)
Definition clobLike `{JsRuntime} (oracleType : option jsstring) : Prop :=
  let upperType := toUpperCase (default [] oracleType) in
  upperType = js "CLOB" \/ upperType = js "NCLOB" \/ upperType = js "LONG".

Definition blobLike `{JsRuntime} (oracleType : option jsstring) : Prop :=
  let upperType := toUpperCase (default [] oracleType) in
  upperType = js "BLOB" \/ upperType = js "RAW" \/ upperType = js "LONG RAW".

(** A cell the driver reports as SQL NULL: [null], or nothing at all under
    the column's name or index ([undefined]). *)
Definition isSqlNull (v : jsval) : Prop := v = VNull \/ v = VUndefined.

(** The driver cell of the [i]-th column of a row. *)
Definition cellOf (r : row) (i : nat) (c : column) : jsval :=
  match r with
  | RowObject cells => cellByName cells (columnName c)
  | RowArray cells => cellByIndex cells i
  end.

(** The object branch of [mapRow], from an accumulated result on. *)
Definition mapObjectFrom `{JsRuntime} (cells : gmap jsstring jsval)
    (columns : list column) (result : gmap jsstring jsval) : gmap jsstring jsval :=
  fold_left
    (fun result column =>
       <[columnName column := mapValue (cellByName cells (columnName column))
                                       (columnType column)]> result)
    columns result.

(** No column after the [i]-th is normalized under the same key. *)
Definition lastWithKey (columns : list column) (i : nat) (key : jsstring) : Prop :=
  forall j c, i < j -> columns !! j = Some c -> columnName c <> key.

(** ** Drivers to run the engine against *)

(** A pool whose first connection has gone stale: connection [n] is the
    [n]-th one checked out, every statement on connection 0 fails, and so
    does closing a connection. *)
Definition staleFirstDriver : Driver := {|
  world := nat;
  pool_getConnection := fun n => (inr (N.of_nat n), S n);
  conn_execute := fun c _ _ _ n =>
    if (c =? 0)%N
    then (inl (NativeError (Some (js "ORA-03113: end-of-file on communication channel"))), n)
    else (inr {| rowsAffected := None |}, n);
  conn_close := fun _ n => (inl (NativeError (Some (js "NJS-003: invalid connection"))), n);
  date_now := fun n => (0%Z, n)
|}.

(** What a driver must do for the transaction claims to speak of a database
    state: [committed] reads the committed state off its world; a call that
    throws leaves it alone, and so do a statement the DML validator accepts
    when run with auto-commit off, a ROLLBACK, and reading the clock. *)
Class TransactionalDriver `{JsRuntime} `{Driver} : Type := {
  database : Type;
  committed : world -> database;
  failed_call_keeps :
    forall c sql b o w e w',
      conn_execute c sql b o w = (inl e, w') -> committed w' = committed w;
  open_statement_keeps :
    forall c sql b w r w',
      dml_valid (validateDmlSql (VString sql)) = true ->
      conn_execute c sql b (Some {| autoCommit := Some false |}) w = (inr r, w') ->
      committed w' = committed w;
  rollback_keeps :
    forall c w, committed (snd (conn_execute c (js "ROLLBACK") [] None w)) = committed w;
  clock_keeps : forall w, committed (snd (date_now w)) = committed w
}.

(** A one-table ledger: the statements committed so far, those pending in
    the open transaction, and a plan telling which of the coming calls fail. *)
Definition ledger : Type := list jsstring * list jsstring * list bool.

Definition ledgerExecute (sql : jsstring) (o : option ExecOptions) (w : ledger)
  : (exn + ExecResult) * ledger :=
  let '(done, pending, plan) := w in
  match plan with
  | false :: rest =>
      (inl (NativeError (Some (js "ORA-00001: unique constraint violated"))),
       (done, pending, rest))
  | _ =>
      let rest := tail plan in
      if str_eqb sql (js "COMMIT") then
        (inr {| rowsAffected := None |}, (pending, pending, rest))
      else if str_eqb sql (js "ROLLBACK") then
        (inr {| rowsAffected := None |}, (done, done, rest))
      else
        match o with
        | Some {| autoCommit := Some true |} =>
            (inr {| rowsAffected := Some 1%Z |}, (pending ++ [sql], pending ++ [sql], rest))
        | _ => (inr {| rowsAffected := Some 1%Z |}, (done, pending ++ [sql], rest))
        end
  end.

Definition ledgerDriver : Driver := {|
  world := ledger;
  pool_getConnection := fun w => (inr 0%N, w);
  conn_execute := fun _ sql _ o w => ledgerExecute sql o w;
  conn_close := fun _ w => (inr tt, w);
  date_now := fun w => (0%Z, w)
|}.

(** What [insertRecord] sends once its checks have passed: the statement
    text and the bind values collected from [data]. *)
Definition insertPrepared `{JsRuntime} (env : option jsstring) (tableName : jsstring)
    (data : jsval) (sql : jsstring) (bindValues : binds) : Prop :=
  allowed (checkTableAccess env tableName) = true
  /\ truthy data = true /\ typeofObject data = true /\ isArray data = false
  /\ objectKeys data <> []
  /\ exists placeholders,
       collectBinds data (objectKeys data) [] [] = inr (placeholders, bindValues)
       /\ sql = js "INSERT INTO " ++ toUpperCase tableName ++ js " ("
                ++ join (js ", ") (objectKeys data) ++ js ") VALUES ("
                ++ join (js ", ") placeholders ++ js ")".

(** An INSERT statement, as the DML validator decides it. *)
Definition isInsertStatement `{JsRuntime} (sql : jsstring) : Prop :=
  startsWith (toUpperCase (trim sql)) (js "INSERT") = true.

(** No dangerous keyword of the read validator stands alone in the text. *)
Definition noDangerousKeyword (sql : jsstring) : Prop :=
  forall kw, In kw dangerousKeywords -> ~ standaloneRead kw sql.

(** The whitelist variable names the table: one of its comma-separated
    pieces, trimmed and upper-cased, is the upper-cased table name. *)
Definition whitelisted `{JsRuntime} (whitelist tableName : jsstring) : Prop :=
  exists piece,
    In piece (split_on 0x2C%N whitelist)
    /\ toUpperCase (trim piece) <> []
    /\ toUpperCase (trim piece) = toUpperCase tableName.

(** The text [buildPaginatedSql] appends its clauses to: the base stripped
    of surrounding white space and of one trailing semicolon. *)
Definition strippedBody (baseSql : jsstring) : jsstring :=
  if endsWith (trim baseSql) (js ";") then slice_drop_last (trim baseSql) else trim baseSql.

(** A computation that only appends to the log of driver calls and does not
    look at what was logged before it. *)
Definition appends `{Driver} {A : Type} (m : Eff.M A) : Prop :=
  forall w log,
    m (w, log) = (fst (m (w, [])), (fst (snd (m (w, []))), log ++ snd (snd (m (w, []))))).
(** * Properties *)

(** ** Strings *)

(** Source literals as the code units they stand for. *)
Ltac eval_js :=
  repeat match goal with
         | |- context [js ?s] =>
             let v := eval vm_compute in (js s) in change (js s) with v
         end.

Ltac eval_js_in H :=
  repeat match type of H with
         | context [js ?s] =>
             let v := eval vm_compute in (js s) in change (js s) with v in H
         end.

Section StringFacts.
Implicit Types s p w : jsstring.

Lemma cu_eqb_eq (a b : codeunit) : cu_eqb a b = true <-> a = b.
Proof. unfold cu_eqb. apply N.eqb_eq. Qed.

Lemma str_eqb_eq s p : str_eqb s p = true <-> s = p.
Proof. unfold str_eqb. rewrite bool_decide_eq_true. reflexivity. Qed.

Lemma str_eqb_refl s : str_eqb s s = true.
Proof. apply str_eqb_eq. reflexivity. Qed.

Lemma startsWith_spec s p : startsWith s p = true <-> exists rest, s = p ++ rest.
Proof.
  revert s. induction p as [|a p IH]; intros s; simpl.
  - split; [intros _; exists s; reflexivity | reflexivity].
  - destruct s as [|b s]; simpl.
    + split; [discriminate | intros [rest Hr]; discriminate].
    + rewrite andb_true_iff, cu_eqb_eq, IH. split.
      * intros [-> [rest ->]]. exists rest. reflexivity.
      * intros [rest Hr]. injection Hr as -> ->. split; [reflexivity | eauto].
Qed.

Lemma startsWith_app p rest : startsWith (p ++ rest) p = true.
Proof. apply startsWith_spec. eauto. Qed.

Lemma includes_spec s p : includes s p = true <-> exists pre post, s = pre ++ p ++ post.
Proof.
  induction s as [|c s IH].
  - simpl. rewrite orb_false_r, startsWith_spec. split.
    + intros [rest Hr]. exists [], rest. exact Hr.
    + intros [pre [post Hs]]. destruct pre; [eauto | discriminate].
  - cbn [includes]. rewrite orb_true_iff, startsWith_spec, IH. split.
    + intros [[rest Hr] | [pre [post Hs]]].
      * exists [], rest. exact Hr.
      * exists (c :: pre), post. rewrite Hs. reflexivity.
    + intros [pre [post Hs]]. destruct pre as [|c' pre].
      * left. exists post. exact Hs.
      * right. injection Hs as -> ->. eauto.
Qed.

Lemma endsWith_unit s (c : codeunit) :
  endsWith s [c] = true -> s = slice_drop_last s ++ [c].
Proof.
  unfold endsWith, slice_drop_last. intros Hs.
  destruct s as [|x s] using rev_ind; [discriminate |].
  rewrite rev_app_distr in Hs. simpl in Hs.
  rewrite andb_true_r in Hs. apply cu_eqb_eq in Hs. subst x.
  rewrite removelast_last. reflexivity.
Qed.

End StringFacts.

(** ** Row limit *)

(** C2, as the source has it: the two formulas hold for every requested
    limit and default; the result never exceeds the ceiling of 1000, and it
    is at least 1 when a limit was requested or the default is at least 1
    (as the built-in default 100 is). *)
Theorem enforceRowLimit_clamp (requested : numarg) (defaultLimit : option Z) :
  let r := enforceRowLimit requested defaultLimit in
  r = match requested with
      | ArgNumber n => Z.min (Z.max 1 n) MAX_ROWS_LIMIT
      | ArgUndefined | ArgNull => Z.min (default 100%Z defaultLimit) MAX_ROWS_LIMIT
      end
  /\ MAX_ROWS_LIMIT = 1000%Z
  /\ (r <= 1000)%Z
  /\ ((exists n, requested = ArgNumber n) \/ (1 <= default 100%Z defaultLimit)%Z -> (1 <= r)%Z)
  /\ (1 <= enforceRowLimit requested None <= 1000)%Z.
Proof.
  unfold enforceRowLimit, MAX_ROWS_LIMIT. cbn zeta.
  destruct requested; cbn [default from_option].
  all: repeat split; try lia.
  all: intros [[n Hn] | Hd]; first [discriminate | lia].
Qed.

Lemma enforceRowLimit_clamp_witness :
  (1 <= enforceRowLimit (ArgNumber (-7)) (Some 0%Z))%Z
  /\ (1 <= enforceRowLimit ArgNull None)%Z.
Proof.
  split.
  - destruct (enforceRowLimit_clamp (ArgNumber (-7)) (Some 0%Z)) as (_ & _ & _ & Hlow & _).
    apply Hlow. left. eexists. reflexivity.
  - destruct (enforceRowLimit_clamp ArgNull None) as (_ & _ & _ & Hlow & _).
    apply Hlow. right. simpl. lia.
Defined.

(** C2 as stated fails: with no requested limit and a default below 1 the
    default itself comes back, outside the range 1..1000. *)
Lemma enforceRowLimit_default_not_clamped :
  enforceRowLimit ArgUndefined (Some 0%Z) = 0%Z
  /\ ~ (1 <= enforceRowLimit ArgUndefined (Some 0%Z) <= 1000)%Z.
Proof. split; [reflexivity | vm_compute; intros [Hle _]; apply Hle; reflexivity]. Qed.

(** ** Pagination *)

Lemma positiveArg_Some (n : Z) : (0 < n)%Z -> positiveArg (ArgNumber n) = Some n.
Proof. intros Hn. unfold positiveArg. destruct (Z.ltb_spec 0 n); [reflexivity | lia]. Qed.

Lemma positiveArg_None (x : numarg) : notPositive x -> positiveArg x = None.
Proof.
  intros [-> | [-> | [n [-> Hn]]]]; try reflexivity.
  unfold positiveArg. destruct (Z.ltb_spec 0 n); [lia | reflexivity].
Qed.

Lemma buildPaginatedSql_body (baseSql : jsstring) :
  strippedOf baseSql
    (if endsWith (trim baseSql) (js ";") then slice_drop_last (trim baseSql)
     else trim baseSql).
Proof.
  unfold strippedOf. destruct (endsWith (trim baseSql) (js ";")) eqn:He.
  - right. apply (endsWith_unit _ 0x3B%N). exact He.
  - left. split; reflexivity.
Qed.

Ltac paginated :=
  cbn [app length Nat.eqb Nat.ltb Nat.leb join]; eval_js;
  rewrite <- ?app_assoc; cbn [app]; reflexivity.

(** C5: the trimmed base loses one trailing semicolon; [OFFSET n ROWS] is
    appended exactly for a positive offset, [FETCH NEXT n ROWS ONLY] exactly
    for a positive limit, after [OFFSET 0 ROWS] when no offset clause went
    before; with neither, nothing is appended; and the scenario of the
    specification evaluates as written. *)
Theorem buildPaginatedSql_clauses (baseSql : jsstring) :
  exists body, strippedOf baseSql body
  /\ (forall l o, (0 < l)%Z -> (0 < o)%Z ->
        buildPaginatedSql baseSql (ArgNumber l) (ArgNumber o)
        = body ++ js " OFFSET " ++ numberToString o ++ js " ROWS FETCH NEXT "
               ++ numberToString l ++ js " ROWS ONLY")
  /\ (forall limit o, notPositive limit -> (0 < o)%Z ->
        buildPaginatedSql baseSql limit (ArgNumber o)
        = body ++ js " OFFSET " ++ numberToString o ++ js " ROWS")
  /\ (forall l offset, (0 < l)%Z -> notPositive offset ->
        buildPaginatedSql baseSql (ArgNumber l) offset
        = body ++ js " OFFSET 0 ROWS FETCH NEXT " ++ numberToString l ++ js " ROWS ONLY")
  /\ (forall limit offset, notPositive limit -> notPositive offset ->
        buildPaginatedSql baseSql limit offset = body)
  /\ buildPaginatedSql (js "SELECT * FROM T") (ArgNumber 100) (ArgNumber 50)
     = js "SELECT * FROM T OFFSET 50 ROWS FETCH NEXT 100 ROWS ONLY".
Proof.
  eexists. split; [apply buildPaginatedSql_body |].
  set (body := if endsWith (trim baseSql) (js ";") then _ else _).
  split; [| split; [| split; [| split]]].
  - intros l o Hl Ho. unfold buildPaginatedSql. fold body.
    rewrite (positiveArg_Some o Ho), (positiveArg_Some l Hl). paginated.
  - intros limit o Hl Ho. unfold buildPaginatedSql. fold body.
    rewrite (positiveArg_Some o Ho), (positiveArg_None limit Hl). paginated.
  - intros l offset Hl Ho. unfold buildPaginatedSql. fold body.
    rewrite (positiveArg_None offset Ho), (positiveArg_Some l Hl). paginated.
  - intros limit offset Hl Ho. unfold buildPaginatedSql. fold body.
    rewrite (positiveArg_None offset Ho), (positiveArg_None limit Hl). reflexivity.
  - vm_compute. reflexivity.
Qed.

Lemma buildPaginatedSql_clauses_witness :
  buildPaginatedSql (js "SELECT 1 FROM DUAL; ") (ArgNumber 10) ArgNull
  = js "SELECT 1 FROM DUAL OFFSET 0 ROWS FETCH NEXT 10 ROWS ONLY".
Proof.
  destruct (buildPaginatedSql_clauses (js "SELECT 1 FROM DUAL; "))
    as (body & Hbody & _ & _ & Hfetch & _).
  rewrite (Hfetch 10%Z ArgNull); [| reflexivity | right; left; reflexivity].
  destruct Hbody as [[Hends _] | Htrim]; [vm_compute in Hends; discriminate Hends |].
  vm_compute in Htrim.
  apply (app_inj_tail (js "SELECT 1 FROM DUAL") body) in Htrim.
  destruct Htrim as [<- _]. vm_compute. reflexivity.
Defined.

(** ** Error classification *)

(** C9: a native error whose message contains ORA-01017 is classified as an
    authentication failure, code 102, and that kind exits with the
    connection class, which differs from every other exit code. *)
Theorem handleConnectionError_auth_failed (error : exn) (message : jsstring) :
  exnMessage error = Some message ->
  (exists before after, message = before ++ js "ORA-01017" ++ after) ->
  let e := handleConnectionError error in
  err_code e = ErrorCode.AUTH_FAILED
  /\ ErrorCode.AUTH_FAILED = 102%Z
  /\ err_exitCode e = getExitCode (err_code e)
  /\ getExitCode ErrorCode.AUTH_FAILED = ExitCode.CONNECTION_ERROR
  /\ ExitCode.CONNECTION_ERROR <> ExitCode.SUCCESS
  /\ ExitCode.CONNECTION_ERROR <> ExitCode.CONFIG_ERROR
  /\ ExitCode.CONNECTION_ERROR <> ExitCode.QUERY_ERROR
  /\ ExitCode.CONNECTION_ERROR <> ExitCode.OUTPUT_ERROR
  /\ ExitCode.CONNECTION_ERROR <> ExitCode.UNKNOWN_ERROR.
Proof.
  intros Hmsg Hora e.
  assert (Hinc : includes (messageOrEmpty error) (js "ORA-01017") = true).
  { unfold messageOrEmpty. rewrite Hmsg. apply includes_spec. exact Hora. }
  subst e. unfold handleConnectionError. rewrite Hinc. cbn [orb].
  repeat split; try reflexivity; discriminate.
Qed.

Lemma handleConnectionError_auth_failed_witness :
  err_code (handleConnectionError
              (NativeError (Some (js "ORA-01017: invalid username/password; logon denied"))))
  = ErrorCode.AUTH_FAILED.
Proof.
  destruct (handleConnectionError_auth_failed
              (NativeError (Some (js "ORA-01017: invalid username/password; logon denied")))
              (js "ORA-01017: invalid username/password; logon denied")) as [Hcode _].
  - reflexivity.
  - exists [], (js ": invalid username/password; logon denied"). vm_compute. reflexivity.
  - exact Hcode.
Defined.

(** ** Regular expressions and standalone keywords *)

Section RegexFacts.
Implicit Types (s w kw pre post : jsstring) (prev : option codeunit).

Lemma afterOf_nil prev : afterOf prev [] = prev.
Proof. reflexivity. Qed.

Lemma afterOf_cons prev c w : afterOf prev (c :: w) = afterOf (Some c) w.
Proof.
  unfold afterOf. destruct w as [|d w]; [reflexivity |]. rewrite last_cons_cons.
  destruct (last (d :: w)) eqn:Hl; [reflexivity |]. apply last_None in Hl. discriminate.
Qed.

Lemma afterOf_app prev pre w : afterOf prev (pre ++ w) = afterOf (afterOf prev pre) w.
Proof.
  revert prev. induction pre as [|c pre IH]; intros prev; [reflexivity |].
  rewrite <- app_comm_cons, !afterOf_cons. apply IH.
Qed.

Lemma afterOf_None pre : afterOf None pre = last pre.
Proof. unfold afterOf. destruct (last pre); reflexivity. Qed.

Lemma ciEq_nil_l kw : ciEq [] kw -> kw = [].
Proof. unfold ciEq. destruct kw; [reflexivity | discriminate]. Qed.

Lemma ciEq_nil_r w : ciEq w [] -> w = [].
Proof. unfold ciEq. destruct w; [reflexivity | discriminate]. Qed.

Lemma ciEq_cons c w p kw :
  ciEq (c :: w) (p :: kw) <-> asciiUpper c = asciiUpper p /\ ciEq w kw.
Proof.
  unfold ciEq. simpl. split.
  - intros Heq. injection Heq as Hc Hw. split; assumption.
  - intros [-> ->]. reflexivity.
Qed.

Lemma ciEq_refl w : ciEq w w.
Proof. reflexivity. Qed.

(** What the case-insensitive literal matches. *)
Lemma re_match_ciLiteral kw prev s k :
  re_match (ciLiteral kw) prev s k = true
  <-> exists w rest, s = w ++ rest /\ ciEq w kw /\ k (afterOf prev w) rest = true.
Proof.
  revert prev s. induction kw as [|p kw IH]; intros prev s.
  - simpl. split.
    + intros Hk. exists [], s. repeat split; assumption.
    + intros (w & rest & -> & Hw & Hk). apply ciEq_nil_r in Hw. subst w. exact Hk.
  - cbn [ciLiteral ciChar re_match]. destruct s as [|c t].
    + split; [discriminate |].
      intros (w & rest & Hs & Hw & _). destruct w; [apply ciEq_nil_l in Hw |]; discriminate.
    + rewrite andb_true_iff, cu_eqb_eq, IH. split.
      * intros (Hc & w & rest & -> & Hw & Hk). exists (c :: w), rest.
        rewrite afterOf_cons, ciEq_cons. repeat split; assumption.
      * intros (w & rest & Hs & Hw & Hk). destruct w as [|c' w].
        { apply ciEq_nil_l in Hw. discriminate. }
        injection Hs as -> ->. apply ciEq_cons in Hw. destruct Hw as [Hc Hw].
        rewrite afterOf_cons in Hk. split; [exact Hc |]. exists w, rest. auto.
Qed.

(** A search succeeds where a match does, at some position. *)
Lemma re_search_spec r prev s :
  re_search r prev s = true
  <-> exists pre rest,
        s = pre ++ rest /\ re_match r (afterOf prev pre) rest (fun _ _ => true) = true.
Proof.
  revert prev. induction s as [|c s IH]; intros prev.
  - simpl. rewrite orb_false_r. split.
    + intros Hm. exists [], []. split; [reflexivity | exact Hm].
    + intros (pre & rest & Hs & Hm). symmetry in Hs. apply app_eq_nil in Hs.
      destruct Hs as [-> ->]. exact Hm.
  - cbn [re_search]. rewrite orb_true_iff, IH. split.
    + intros [Hm | (pre & rest & -> & Hm)].
      * exists [], (c :: s). split; [reflexivity | exact Hm].
      * exists (c :: pre), rest. rewrite afterOf_cons. split; [reflexivity | exact Hm].
    + intros (pre & rest & Hs & Hm). destruct pre as [|c' pre].
      * left. simpl in Hs. subst rest. exact Hm.
      * right. injection Hs as -> ->. rewrite afterOf_cons in Hm. eauto.
Qed.

Lemma last_None_nil pre : last pre = None -> pre = [].
Proof. apply last_None. Qed.

(** A keyword between two one-unit delimiters, each also satisfied by the
    edge of the text on its side. *)
Lemma re_test_delimited (L R : regex) (f g : codeunit -> bool) kw s :
  (forall prev t k,
      re_match L prev t k
      = (match prev with None => k prev t | Some _ => false end)
        || (match t with c :: t' => f c && k (Some c) t' | [] => false end)) ->
  (forall prev t, re_match R prev t (fun _ _ => true) = edgeOr g (head t)) ->
  re_test (ReSeq L (ReSeq (ciLiteral kw) R)) s = true
  <-> occursBetween (edgeOr f) (edgeOr g) kw s.
Proof.
  intros HL HR. unfold re_test, occursBetween. rewrite re_search_spec. split.
  - intros (pre & rest & -> & Hm). cbn [re_match] in Hm. rewrite HL in Hm.
    apply orb_true_iff in Hm. destruct Hm as [Hm | Hm].
    + destruct (afterOf None pre) eqn:Hp; [discriminate |].
      rewrite afterOf_None in Hp. apply last_None_nil in Hp. subst pre.
      apply re_match_ciLiteral in Hm. destruct Hm as (w & post & -> & Hw & Hk).
      rewrite HR in Hk. exists [], w, post. repeat split; assumption.
    + destruct rest as [|c t]; [discriminate |].
      apply andb_true_iff in Hm. destruct Hm as [Hf Hm].
      apply re_match_ciLiteral in Hm. destruct Hm as (w & post & -> & Hw & Hk).
      rewrite HR in Hk. exists (pre ++ [c]), w, post.
      rewrite last_snoc, <- app_assoc. repeat split; assumption.
  - intros (pre & w & post & -> & Hw & Hl & Hr).
    destruct pre as [|x pre] using rev_ind.
    + exists [], (w ++ post). split; [reflexivity |].
      cbn [re_match]. rewrite HL. apply orb_true_iff. left. cbn [afterOf last].
      apply re_match_ciLiteral. exists w, post. rewrite HR. auto.
    + rewrite last_snoc in Hl. exists pre, (x :: w ++ post). split.
      * rewrite <- app_assoc. reflexivity.
      * cbn [re_match]. rewrite HL. apply orb_true_iff. right.
        apply andb_true_iff. split; [exact Hl |].
        apply re_match_ciLiteral. exists w, post. rewrite HR. auto.
Qed.

End RegexFacts.

(** *** The three patterns of the validators *)

Section PatternFacts.
Implicit Types (s w kw pre post : jsstring) (c p : codeunit).

Ltac bool_to_prop :=
  repeat (rewrite ?orb_true_iff, ?andb_true_iff, ?orb_false_iff, ?andb_false_iff,
            ?N.leb_le, ?N.eqb_eq, ?N.leb_gt, ?N.eqb_neq, ?N.ltb_lt, ?N.ltb_ge in * ).

Lemma asciiUpper_cases c :
  (asciiUpper c = c /\ ~ (0x61 <= c <= 0x7A)%N)
  \/ ((0x61 <= c <= 0x7A)%N /\ asciiUpper c = (c - 0x20)%N).
Proof.
  unfold asciiUpper.
  destruct (N.leb_spec 0x61 c); destruct (N.leb_spec c 0x7A); cbn [andb]; intuition lia.
Qed.

Lemma isWordChar_ciEq c p :
  asciiUpper c = asciiUpper p -> isWordChar p = true -> isWordChar c = true.
Proof.
  intros Hup Hp. unfold isWordChar, cu_eqb in *. bool_to_prop.
  destruct (asciiUpper_cases c) as [[Hc ?] | [? Hc]];
    destruct (asciiUpper_cases p) as [[Hq ?] | [? Hq]];
    rewrite Hc, Hq in Hup; lia.
Qed.

Lemma isWordChar_not_space c : isWordChar c = true -> isSpaceOrParen c = false.
Proof.
  unfold isWordChar, isSpaceOrParen, isWhiteSpace, cu_eqb. intros Hc. bool_to_prop.
  lia.
Qed.

Lemma isSpaceOrParen_space c : isWhiteSpace c = true -> isSpaceOrParen c = true.
Proof. unfold isSpaceOrParen. intros ->. reflexivity. Qed.

Lemma isWhiteSpace_not_word c : isWhiteSpace c = true -> isWordChar c = false.
Proof.
  intros Hs. destruct (isWordChar c) eqn:Hw; [| reflexivity].
  apply isWordChar_not_space in Hw. unfold isSpaceOrParen in Hw. rewrite Hs in Hw.
  discriminate.
Qed.

Lemma ciEq_words w kw :
  ciEq w kw -> forallb isWordChar kw = true -> forallb isWordChar w = true.
Proof.
  revert kw. induction w as [|c w IH]; intros kw Hw Hkw; [reflexivity |].
  destruct kw as [|p kw]; [apply ciEq_nil_r in Hw; discriminate |].
  apply ciEq_cons in Hw. destruct Hw as [Hc Hw].
  cbn [forallb] in *. apply andb_true_iff in Hkw. destruct Hkw as [Hp Hkw].
  apply andb_true_iff. split; [eapply isWordChar_ciEq; eassumption | eapply IH; eassumption].
Qed.

Lemma ciEq_length w kw : ciEq w kw -> length w = length kw.
Proof. unfold ciEq. intros Heq. apply (f_equal (@length _)) in Heq. rewrite !length_map in Heq. exact Heq. Qed.

(** The read validator's pattern finds exactly the keywords set off by
    white space or the edges. *)
Lemma readKeywordRegex_spec kw s :
  re_test (readKeywordRegex kw) s = true <-> standaloneRead kw s.
Proof.
  apply re_test_delimited.
  - intros prev t k. reflexivity.
  - intros prev t. destruct t as [|c t]; cbn; [reflexivity |].
    rewrite andb_true_r, orb_false_r. reflexivity.
Qed.

(** The DML blacklist's pattern also takes an opening parenthesis as a
    delimiter. *)
Lemma dmlKeywordRegex_spec kw s :
  re_test (dmlKeywordRegex kw) s = true <-> standaloneDml kw s.
Proof.
  apply re_test_delimited.
  - intros prev t k. cbn [re_match reSpace reLParen]. unfold isSpaceOrParen.
    destruct prev as [q|]; destruct t as [|c t]; cbn [orb]; try reflexivity.
    all: rewrite andb_orb_distrib_l; reflexivity.
  - intros prev t. destruct t as [|c t]; cbn; [reflexivity |].
    unfold isSpaceOrParen. rewrite !andb_true_r, orb_false_r. reflexivity.
Qed.

Lemma head_app_words w post :
  w <> [] -> forallb isWordChar w = true -> isWordAt (head (w ++ post)) = true.
Proof.
  destruct w as [|c w]; [congruence |]. cbn. intros _ Hw.
  apply andb_true_iff in Hw. apply Hw.
Qed.

Lemma afterOf_words prev w :
  w <> [] -> forallb isWordChar w = true -> isWordAt (afterOf prev w) = true.
Proof.
  intros Hne Hw. destruct w as [|c w] using rev_ind; [congruence |].
  unfold afterOf. rewrite last_snoc. rewrite forallb_app in Hw.
  apply andb_true_iff in Hw. destruct Hw as [_ Hc]. cbn in Hc.
  rewrite andb_true_r in Hc. exact Hc.
Qed.

(** [\bkw\b] for a keyword of word characters finds exactly its occurrences
    with no word character on either side. *)
Lemma wordRegex_spec kw s :
  kw <> [] -> forallb isWordChar kw = true ->
  re_test (ReSeq ReWordBoundary (ReSeq (ciLiteral kw) ReWordBoundary)) s = true
  <-> standaloneWord kw s.
Proof.
  intros Hne Hkw. unfold re_test, standaloneWord, occursBetween.
  rewrite re_search_spec. split.
  - intros (pre & rest & -> & Hm). cbn [re_match] in Hm.
    apply andb_true_iff in Hm. destruct Hm as [Hl Hm].
    apply re_match_ciLiteral in Hm. destruct Hm as (w & post & -> & Hw & Hr).
    rewrite andb_true_r in Hr.
    assert (Hww : forallb isWordChar w = true) by (eapply ciEq_words; eassumption).
    assert (Hwn : w <> []).
    { intros ->. apply ciEq_nil_l in Hw. congruence. }
    rewrite (head_app_words w post Hwn Hww), afterOf_None in Hl.
    rewrite (afterOf_words _ w Hwn Hww) in Hr.
    exists pre, w, post. split; [reflexivity | split; [exact Hw | split]].
    + destruct (isWordAt (last pre)); [discriminate | reflexivity].
    + destruct (isWordAt (head post)); [discriminate | reflexivity].
  - intros (pre & w & post & -> & Hw & Hl & Hr).
    assert (Hww : forallb isWordChar w = true) by (eapply ciEq_words; eassumption).
    assert (Hwn : w <> []).
    { intros ->. apply ciEq_nil_l in Hw. congruence. }
    exists pre, (w ++ post). split; [reflexivity |].
    cbn [re_match]. rewrite afterOf_None, (head_app_words w post Hwn Hww).
    apply negb_true_iff in Hl. rewrite Hl. cbn [xorb andb].
    apply re_match_ciLiteral. exists w, post. repeat split; try assumption.
    rewrite (afterOf_words _ w Hwn Hww). apply negb_true_iff in Hr. rewrite Hr. reflexivity.
Qed.

Lemma whereRegex_spec s : re_test whereRegex s = true <-> standaloneWord (js "WHERE") s.
Proof. apply wordRegex_spec; [discriminate | vm_compute; reflexivity]. Qed.

End PatternFacts.

(** *** Trimming does not move a keyword *)

Section TrimFacts.
Variables left right : option codeunit -> bool.
Variable kw : jsstring.
Hypothesis kw_nonempty : kw <> [].
Hypothesis kw_words : forallb isWordChar kw = true.
Hypothesis left_edge : left None = true.
Hypothesis right_edge : right None = true.
Hypothesis left_space : forall c, isWhiteSpace c = true -> left (Some c) = true.
Hypothesis right_space : forall c, isWhiteSpace c = true -> right (Some c) = true.

Lemma ciEq_kw_shape w :
  ciEq w kw -> w <> [] /\ forallb isWordChar w = true.
Proof.
  intros Hw. split; [| eapply ciEq_words; eassumption].
  intros ->. apply ciEq_nil_l in Hw. congruence.
Qed.

Lemma occursBetween_cons_space c s :
  isWhiteSpace c = true ->
  occursBetween left right kw (c :: s) <-> occursBetween left right kw s.
Proof.
  intros Hc. unfold occursBetween. split.
  - intros (pre & w & post & Hs & Hw & Hl & Hr).
    destruct (ciEq_kw_shape w Hw) as [Hwn Hww].
    destruct pre as [|c' pre].
    + destruct w as [|c' w]; [congruence |]. injection Hs as <- _.
      cbn in Hww. apply andb_true_iff in Hww. destruct Hww as [Hword _].
      rewrite (isWhiteSpace_not_word c Hc) in Hword. discriminate.
    + injection Hs as <- ->. exists pre, w, post.
      split; [reflexivity |]. split; [exact Hw |]. split; [| exact Hr].
      destruct pre as [|d pre]; [exact left_edge |].
      rewrite last_cons_cons in Hl. exact Hl.
  - intros (pre & w & post & -> & Hw & Hl & Hr).
    exists (c :: pre), w, post.
    split; [reflexivity |]. split; [exact Hw |]. split; [| exact Hr].
    destruct pre as [|d pre]; [apply left_space; exact Hc |].
    rewrite last_cons_cons. exact Hl.
Qed.

Lemma occursBetween_snoc_space c s :
  isWhiteSpace c = true ->
  occursBetween left right kw (s ++ [c]) <-> occursBetween left right kw s.
Proof.
  intros Hc. unfold occursBetween. split.
  - intros (pre & w & post & Hs & Hw & Hl & Hr).
    destruct (ciEq_kw_shape w Hw) as [Hwn Hww].
    destruct post as [|c' post] using rev_ind.
    + rewrite app_nil_r in Hs.
      destruct w as [|c' w] using rev_ind; [congruence |].
      rewrite app_assoc in Hs. apply app_inj_tail in Hs. destruct Hs as [_ <-].
      rewrite forallb_app in Hww. apply andb_true_iff in Hww. destruct Hww as [_ Hword].
      cbn in Hword. rewrite (isWhiteSpace_not_word c Hc) in Hword. discriminate.
    + rewrite !app_assoc in Hs. apply app_inj_tail in Hs. destruct Hs as [-> <-].
      exists pre, w, post. rewrite <- app_assoc.
      split; [reflexivity |]. split; [exact Hw |]. split; [exact Hl |].
      destruct post as [|d post]; [exact right_edge | exact Hr].
  - intros (pre & w & post & -> & Hw & Hl & Hr).
    exists pre, w, (post ++ [c]). rewrite <- !app_assoc.
    split; [reflexivity |]. split; [exact Hw |]. split; [exact Hl |].
    destruct post as [|d post]; [apply right_space; exact Hc | exact Hr].
Qed.

Lemma occursBetween_trimStart s :
  occursBetween left right kw (trimStart s) <-> occursBetween left right kw s.
Proof.
  induction s as [|c s IH]; [reflexivity |].
  cbn [trimStart]. destruct (isWhiteSpace c) eqn:Hc; [| reflexivity].
  rewrite IH. symmetry. apply occursBetween_cons_space. exact Hc.
Qed.

Lemma trimEnd_snoc c s :
  trimEnd (s ++ [c]) = if isWhiteSpace c then trimEnd s else s ++ [c].
Proof.
  unfold trimEnd. rewrite rev_app_distr. cbn [rev app trimStart].
  destruct (isWhiteSpace c); [reflexivity |].
  cbn [rev]. rewrite rev_involutive. reflexivity.
Qed.

Lemma occursBetween_trimEnd s :
  occursBetween left right kw (trimEnd s) <-> occursBetween left right kw s.
Proof.
  induction s as [|c s IH] using rev_ind; [reflexivity |].
  rewrite trimEnd_snoc. destruct (isWhiteSpace c) eqn:Hc; [| reflexivity].
  rewrite IH. symmetry. apply occursBetween_snoc_space. exact Hc.
Qed.

Lemma occursBetween_trim s :
  occursBetween left right kw (trim s) <-> occursBetween left right kw s.
Proof. unfold trim. rewrite occursBetween_trimEnd. apply occursBetween_trimStart. Qed.

End TrimFacts.

Lemma standaloneDml_trim kw s :
  kw <> [] -> forallb isWordChar kw = true ->
  standaloneDml kw (trim s) <-> standaloneDml kw s.
Proof.
  intros Hne Hw. apply occursBetween_trim; try assumption; try reflexivity.
  all: intros c Hc; cbn; apply isSpaceOrParen_space; exact Hc.
Qed.

Lemma standaloneWord_trim kw s :
  kw <> [] -> forallb isWordChar kw = true ->
  standaloneWord kw (trim s) <-> standaloneWord kw s.
Proof.
  intros Hne Hw. apply occursBetween_trim; try assumption; try reflexivity.
  all: intros c Hc; cbn; rewrite (isWhiteSpace_not_word c Hc); reflexivity.
Qed.

(** *** Loops that stop at the first hit *)

Lemma find_first {A} (f : A -> bool) (l : list A) (x : A) :
  List.find f l = Some x ->
  exists before after,
    l = before ++ x :: after /\ f x = true /\ Forall (fun y => f y = false) before.
Proof.
  induction l as [|a l IH]; [discriminate |].
  cbn [List.find]. destruct (f a) eqn:Ha.
  - intros [= ->]. exists [], l. repeat split; [exact Ha | constructor].
  - intros Hfind. destruct (IH Hfind) as (before & after & -> & Hx & Hb).
    exists (a :: before), after. repeat split; [exact Hx | constructor; assumption].
Qed.

Lemma find_none_all {A} (f : A -> bool) (l : list A) :
  List.find f l = None <-> Forall (fun y => f y = false) l.
Proof.
  induction l as [|a l IH]; [split; [constructor | reflexivity] |].
  cbn [List.find]. destruct (f a) eqn:Ha.
  - split; [discriminate |]. intros Hall. inversion Hall; congruence.
  - rewrite IH. split.
    + intros Hall. constructor; assumption.
    + intros Hall. inversion Hall; assumption.
Qed.

(** ** DML validator *)

Section DmlFacts.
Context `{JsRuntime}.

Lemma toUpperCase_nil : toUpperCase [] = [].
Proof. rewrite toUpperCase_ascii; reflexivity. Qed.

Lemma isUpdateStatement_nonempty sql : isUpdateStatement sql -> str_eqb sql [] = false.
Proof.
  unfold isUpdateStatement. intros Hup. destruct sql as [|c sql]; [| reflexivity].
  change (trim []) with (@nil codeunit) in Hup. rewrite toUpperCase_nil in Hup.
  discriminate.
Qed.

Lemma update_verb_found (upperSql : jsstring) :
  startsWith upperSql (js "UPDATE") = true ->
  List.find (fun verb => startsWith upperSql verb) DML_ALLOWED_VERBS = Some (js "UPDATE").
Proof.
  intros Hup. unfold DML_ALLOWED_VERBS. cbn [List.find]. rewrite Hup.
  destruct upperSql as [|c rest]; [discriminate |].
  eval_js_in Hup. cbn [startsWith] in Hup. apply andb_true_iff in Hup.
  destruct Hup as [Hc _]. apply cu_eqb_eq in Hc. subst c. reflexivity.
Qed.

Lemma blacklist_keywords_words :
  Forall (fun kw => kw <> [] /\ forallb isWordChar kw = true) DML_BLACKLIST_KEYWORDS.
Proof. repeat constructor; discriminate. Qed.

Lemma blacklist_test kw sql :
  In kw DML_BLACKLIST_KEYWORDS ->
  re_test (dmlKeywordRegex kw) (trim sql) = true <-> standaloneDml kw sql.
Proof.
  intros Hin. rewrite dmlKeywordRegex_spec.
  pose proof blacklist_keywords_words as Hall. rewrite List.Forall_forall in Hall.
  destruct (Hall kw Hin) as [Hne Hw]. apply standaloneDml_trim; assumption.
Qed.

Lemma where_test sql :
  re_test whereRegex (trim sql) = true <-> standaloneWord (js "WHERE") sql.
Proof.
  rewrite whereRegex_spec. apply standaloneWord_trim; [discriminate | reflexivity].
Qed.

Lemma blacklist_clean sql :
  noBlacklistedKeyword sql ->
  List.find (fun keyword => re_test (dmlKeywordRegex keyword) (trim sql))
    DML_BLACKLIST_KEYWORDS = None.
Proof.
  intros Hclean. apply find_none_all. apply List.Forall_forall. intros kw Hin.
  destruct (re_test (dmlKeywordRegex kw) (trim sql)) eqn:Ht; [| reflexivity].
  apply blacklist_test in Ht; [| exact Hin]. destruct (Hclean kw Hin Ht).
Qed.

(** The validator on an UPDATE statement, step by step. *)
Lemma validateDmlSql_update_unfold sql :
  isUpdateStatement sql ->
  validateDmlSql (VString sql)
  = match List.find (fun keyword => re_test (dmlKeywordRegex keyword) (trim sql))
            DML_BLACKLIST_KEYWORDS with
    | Some keyword =>
        {| dml_valid := false;
           dml_error := Some (js "SQL 中包含禁止的关键字: " ++ keyword);
           dml_verb := Some (js "UPDATE") |}
    | None =>
        if re_test whereRegex (trim sql) then
          {| dml_valid := true; dml_error := None; dml_verb := Some (js "UPDATE") |}
        else
          {| dml_valid := false;
             dml_error := Some (js "UPDATE 语句必须包含 WHERE 子句，防止全表更新");
             dml_verb := Some (js "UPDATE") |}
    end.
Proof.
  intros Hup. unfold validateDmlSql.
  rewrite (isUpdateStatement_nonempty sql Hup), (update_verb_found _ Hup).
  destruct (List.find _ DML_BLACKLIST_KEYWORDS); [reflexivity |].
  rewrite str_eqb_refl. destruct (re_test whereRegex (trim sql)); reflexivity.
Qed.

End DmlFacts.




(** ** Read validator *)

Section ReadFacts.
Context `{JsRuntime}.

Lemma occursBetween_nonempty left right kw s :
  kw <> [] -> occursBetween left right kw s -> s <> [].
Proof.
  intros Hne (pre & w & post & -> & Hw & _) Hnil.
  apply app_eq_nil in Hnil. destruct Hnil as [_ Hnil].
  apply app_eq_nil in Hnil. destruct Hnil as [-> _].
  apply ciEq_nil_l in Hw. congruence.
Qed.

Lemma dangerousKeywords_nonempty kw : In kw dangerousKeywords -> kw <> [].
Proof.
  intros Hin Hnil. subst kw. vm_compute in Hin.
  repeat (destruct Hin as [Hin | Hin]; [discriminate Hin |]). destruct Hin.
Qed.

(** The validator on a non-empty text, step by step. *)
Lemma validateSql_unfold sql :
  sql <> [] ->
  validateSql (VString sql)
  = if startsWith (toUpperCase (trim sql)) (js "SELECT") then
      match List.find (fun keyword => re_test (readKeywordRegex keyword) sql)
              dangerousKeywords with
      | Some keyword =>
          {| valid := false;
             error := Some (js "不允许使用 " ++ keyword ++ js " 关键字") |}
      | None => {| valid := true; error := None |}
      end
    else {| valid := false; error := Some (js "只支持 SELECT 查询语句") |}.
Proof.
  intros Hne. unfold validateSql.
  destruct (str_eqb sql []) eqn:He; [apply str_eqb_eq in He; congruence |].
  destruct (startsWith (toUpperCase (trim sql)) (js "SELECT")); reflexivity.
Qed.

Lemma keyword_message_inj (a b : jsstring) :
  js "不允许使用 " ++ a ++ js " 关键字" = js "不允许使用 " ++ b ++ js " 关键字" -> a = b.
Proof. intros Heq. apply app_inv_head in Heq. apply app_inv_tail in Heq. exact Heq. Qed.

Lemma keyword_message_other kw :
  In kw dangerousKeywords ->
  js "SQL 语句不能为空" <> js "不允许使用 " ++ kw ++ js " 关键字"
  /\ js "只支持 SELECT 查询语句" <> js "不允许使用 " ++ kw ++ js " 关键字".
Proof.
  intros Hin. vm_compute in Hin.
  repeat (destruct Hin as [<- | Hin]; [split; vm_compute; discriminate |]).
  destruct Hin.
Qed.

Lemma standaloneRead_word kw s : standaloneRead kw s -> standaloneWord kw s.
Proof.
  intros (pre & w & post & Hs & Hw & Hl & Hr). exists pre, w, post.
  split; [exact Hs |]. split; [exact Hw |].
  split; [destruct (last pre) as [c|] | destruct (head post) as [c|]];
    cbn [isWordAt negb edgeOr] in *; try reflexivity;
    rewrite isWhiteSpace_not_word by assumption; reflexivity.
Qed.

(** A text that starts with SELECT and holds no keyword between white space
    or edges passes. *)
Lemma validateSql_accepts sql :
  startsWith (toUpperCase (trim sql)) (js "SELECT") = true ->
  (forall k, In k dangerousKeywords -> ~ standaloneRead k sql) ->
  validateSql (VString sql) = {| valid := true; error := None |}.
Proof.
  intros Hsel Hclean.
  assert (Hne : sql <> []).
  { intros ->. change (trim []) with (@nil codeunit) in Hsel.
    rewrite toUpperCase_nil in Hsel. discriminate Hsel. }
  rewrite (validateSql_unfold sql Hne), Hsel.
  destruct (List.find _ dangerousKeywords) as [first|] eqn:Hfind; [| reflexivity].
  apply List.find_some in Hfind. destruct Hfind as [Hin Htest].
  apply readKeywordRegex_spec in Htest. destruct (Hclean first Hin Htest).
Qed.

End ReadFacts.




(** ** Table whitelist *)

Section WhitelistFacts.
Context `{JsRuntime}.

Lemma no_tables (pieces : list jsstring) :
  Forall (fun t => trim t = []) pieces ->
  List.filter (fun t => (0 <? length t)%nat)
    (List.map (fun t => toUpperCase (trim t)) pieces) = [].
Proof.
  induction 1 as [|t pieces Ht _ IH]; [reflexivity |].
  cbn [List.map List.filter]. rewrite Ht, toUpperCase_nil. exact IH.
Qed.

Lemma setHas_empty (x : jsstring) : setHas [] x = false.
Proof. unfold setHas. apply bool_decide_eq_false. apply not_elem_of_nil. Qed.

Lemma getTableWhitelist_degenerate (whitelist : jsstring) :
  trim whitelist <> [] -> noIdentifier whitelist ->
  getTableWhitelist (Some whitelist) = Some [].
Proof.
  intros Hblank Hnone. unfold getTableWhitelist.
  assert (Hne : str_eqb whitelist [] = false).
  { destruct (str_eqb whitelist []) eqn:He; [| reflexivity].
    apply str_eqb_eq in He. subst whitelist. destruct (Hblank eq_refl). }
  assert (Hnt : str_eqb (trim whitelist) [] = false).
  { destruct (str_eqb (trim whitelist) []) eqn:He; [| reflexivity].
    apply str_eqb_eq in He. destruct (Hblank He). }
  rewrite Hne, Hnt. cbn [orb]. rewrite (no_tables _ Hnone). reflexivity.
Qed.

End WhitelistFacts.

(** C10, as the source has it: when the whitelist variable is not blank
    (something is left after trimming it) and holds no identifier between its
    commas, as for [",,"], [getTableWhitelist] returns the empty set, not
    null, and [checkTableAccess] denies every table name. *)
Theorem degenerate_whitelist_denies_all `{JsRuntime} (whitelist : jsstring) :
  trim whitelist <> [] ->
  noIdentifier whitelist ->
  getTableWhitelist (Some whitelist) = Some []
  /\ (forall tableName, allowed (checkTableAccess (Some whitelist) tableName) = false)
  /\ trim (js ",,") <> [] /\ noIdentifier (js ",,").
Proof.
  intros Hblank Hnone.
  pose proof (getTableWhitelist_degenerate whitelist Hblank Hnone) as Hset.
  split; [exact Hset |]. split.
  - intros tableName. unfold checkTableAccess. rewrite Hset, setHas_empty. reflexivity.
  - split; [vm_compute; discriminate |]. vm_compute. repeat constructor.
Qed.

Lemma degenerate_whitelist_denies_all_witness :
  getTableWhitelist (Some (js " , ,")) = Some []
  /\ allowed (checkTableAccess (Some (js " , ,")) (js "EMPLOYEES")) = false.
Proof.
  assert (Hblank : trim (js " , ,") <> []) by (vm_compute; discriminate).
  assert (Hnone : noIdentifier (js " , ,")) by (vm_compute; repeat constructor).
  destruct (degenerate_whitelist_denies_all (js " , ,") Hblank Hnone) as (Hset & Hdeny & _).
  split; [exact Hset | apply Hdeny].
Defined.

(** C10 as stated fails: a blank value is a non-empty string without any
    identifier between commas, yet it disables the whitelist, and every
    table is allowed. *)
Lemma blank_whitelist_allows_all :
  js "   " <> []
  /\ noIdentifier (js "   ")
  /\ getTableWhitelist (Some (js "   ")) = None
  /\ checkTableAccess (Some (js "   ")) (js "EMPLOYEES")
     = {| allowed := true; access_message := None |}.
Proof.
  split; [vm_compute; discriminate |].
  split; [vm_compute; repeat constructor |].
  split; vm_compute; reflexivity.
Qed.

(** ** Truncation of long values *)

Section TruncationFacts.
Context `{JsRuntime}.

Lemma str_eqb_false (a b : jsstring) : a <> b -> str_eqb a b = false.
Proof. intros Hne. unfold str_eqb. apply bool_decide_eq_false. exact Hne. Qed.

Lemma str_eqb_cases (a b : jsstring) :
  (str_eqb a b = true /\ a = b) \/ (str_eqb a b = false /\ a <> b).
Proof.
  destruct (str_eqb a b) eqn:He; [left | right]; split; try reflexivity.
  - apply str_eqb_eq. exact He.
  - intros Heq. apply str_eqb_eq in Heq. congruence.
Qed.

Lemma truncateString_long (s : jsstring) (n : nat) :
  n < length s -> truncateString s n = firstn n s ++ TRUNCATE_SUFFIX.
Proof.
  intros Hlen. unfold truncateString, substring0.
  destruct (Nat.leb_spec (length s) n); [lia | reflexivity].
Qed.

Lemma truncateString_short (s : jsstring) (n : nat) :
  length s <= n -> truncateString s n = s.
Proof.
  intros Hlen. unfold truncateString.
  destruct (Nat.leb_spec (length s) n); [reflexivity | lia].
Qed.

(** The mapper on a string, by the kind of its column type. *)
Lemma mapValue_string_by_type (s : jsstring) (oracleType : option jsstring) :
  mapValue (VString s) oracleType
  = if bool_decide (clobLike oracleType) then VString (truncateString s 4000)
    else if bool_decide (blobLike oracleType) && (2048 <? length s)%nat
         then VString (firstn 2048 s ++ TRUNCATE_SUFFIX)
         else if (4000 <? length s)%nat then VString (truncateString s 4000)
              else VString s.
Proof.
  unfold mapValue, clobLike, blobLike, substring0, LOB_CLOB_MAX_LENGTH.
  change (LOB_BLOB_MAX_LENGTH * 2)%nat with 2048%nat. cbn zeta.
  set (upperType := toUpperCase (default [] oracleType)).
  assert (Hclob : str_eqb upperType (js "CLOB") || str_eqb upperType (js "NCLOB")
                  || str_eqb upperType (js "LONG")
                  = bool_decide (upperType = js "CLOB" \/ upperType = js "NCLOB"
                                 \/ upperType = js "LONG")).
  { unfold str_eqb.
    destruct (decide (upperType = js "CLOB")), (decide (upperType = js "NCLOB")),
      (decide (upperType = js "LONG"));
      repeat first [rewrite bool_decide_eq_true_2 by tauto
                   | rewrite bool_decide_eq_false_2 by tauto]; reflexivity. }
  assert (Hblob : str_eqb upperType (js "BLOB") || str_eqb upperType (js "RAW")
                  || str_eqb upperType (js "LONG RAW")
                  = bool_decide (upperType = js "BLOB" \/ upperType = js "RAW"
                                 \/ upperType = js "LONG RAW")).
  { unfold str_eqb.
    destruct (decide (upperType = js "BLOB")), (decide (upperType = js "RAW")),
      (decide (upperType = js "LONG RAW"));
      repeat first [rewrite bool_decide_eq_true_2 by tauto
                   | rewrite bool_decide_eq_false_2 by tauto]; reflexivity. }
  rewrite Hclob, Hblob. reflexivity.
Qed.

Lemma clob_not_blob (oracleType : option jsstring) :
  clobLike oracleType -> ~ blobLike oracleType.
Proof.
  unfold clobLike, blobLike. cbn zeta.
  intros [-> | [-> | ->]] [Hb | [Hb | Hb]]; vm_compute in Hb; discriminate Hb.
Qed.

Lemma mapValue_buffer (bytes : list N) (oracleType : option jsstring) :
  mapValue (VBuffer bytes) oracleType
  = if (1024 <? length bytes)%nat
    then VString (base64 (firstn 1024 bytes) ++ TRUNCATE_SUFFIX)
    else VString (base64 bytes).
Proof.
  unfold mapValue, LOB_BLOB_MAX_LENGTH. cbn zeta.
  destruct (1024 <? length bytes)%nat; reflexivity.
Qed.

End TruncationFacts.

(** C6: under a long-text type, and under any type that is not a binary
    one, a string longer than 4000 code units is cut to its first 4000
    followed by the marker, and a shorter one is returned as it is; a string
    under a binary type has the threshold of 2048 hex digits (1024 bytes)
    with the same rule; a Buffer longer than 1024 bytes is cut to its first
    1024 bytes before the base64 encoding and the marker follows the
    encoding, and a shorter one is encoded whole with no marker; so a
    5000-character CLOB maps to exactly 4000 characters plus the marker. *)
Theorem mapValue_truncation `{JsRuntime} (oracleType : option jsstring) :
  (forall s, 4000 < length s -> (clobLike oracleType \/ ~ blobLike oracleType) ->
     mapValue (VString s) oracleType = VString (firstn 4000 s ++ TRUNCATE_SUFFIX)
     /\ length (firstn 4000 s) = 4000)
  /\ (forall s, length s <= 4000 -> (clobLike oracleType \/ ~ blobLike oracleType) ->
     mapValue (VString s) oracleType = VString s)
  /\ (forall s, 2048 < length s -> blobLike oracleType ->
     mapValue (VString s) oracleType = VString (firstn 2048 s ++ TRUNCATE_SUFFIX))
  /\ (forall s, length s <= 2048 -> blobLike oracleType ->
     mapValue (VString s) oracleType = VString s)
  /\ (forall bytes, 1024 < length bytes ->
     mapValue (VBuffer bytes) oracleType
     = VString (base64 (firstn 1024 bytes) ++ TRUNCATE_SUFFIX))
  /\ (forall bytes, length bytes <= 1024 ->
     mapValue (VBuffer bytes) oracleType = VString (base64 bytes))
  /\ (forall s, length s = 5000 -> clobLike oracleType ->
     exists kept, mapValue (VString s) oracleType = VString (kept ++ TRUNCATE_SUFFIX)
                  /\ length kept = 4000 /\ kept = firstn 4000 s)
  /\ TRUNCATE_SUFFIX = js "... [已截断]".
Proof.
  assert (Hlong : forall s, 4000 < length s ->
            (clobLike oracleType \/ ~ blobLike oracleType) ->
            mapValue (VString s) oracleType = VString (firstn 4000 s ++ TRUNCATE_SUFFIX)
            /\ length (firstn 4000 s) = 4000).
  { intros s Hlen Htype. split; [| rewrite length_firstn; lia].
    rewrite mapValue_string_by_type.
    destruct (decide (clobLike oracleType)) as [Hc | Hc].
    - rewrite bool_decide_eq_true_2 by exact Hc. rewrite truncateString_long by exact Hlen.
      reflexivity.
    - rewrite bool_decide_eq_false_2 by exact Hc.
      rewrite (bool_decide_eq_false_2 (blobLike oracleType)) by tauto. cbn [andb].
      destruct (Nat.ltb_spec 4000 (length s)); [| lia].
      rewrite truncateString_long by exact Hlen. reflexivity. }
  split; [exact Hlong |]. split; [| split; [| split; [| split; [| split; [| split]]]]].
  - intros s Hlen Htype. rewrite mapValue_string_by_type.
    destruct (decide (clobLike oracleType)) as [Hc | Hc].
    + rewrite bool_decide_eq_true_2 by exact Hc. rewrite truncateString_short by exact Hlen.
      reflexivity.
    + rewrite bool_decide_eq_false_2 by exact Hc.
      rewrite (bool_decide_eq_false_2 (blobLike oracleType)) by tauto. cbn [andb].
      destruct (Nat.ltb_spec 4000 (length s)); [lia | reflexivity].
  - intros s Hlen Hblob. rewrite mapValue_string_by_type.
    rewrite bool_decide_eq_false_2 by (intros Hc; exact (clob_not_blob _ Hc Hblob)).
    rewrite bool_decide_eq_true_2 by exact Hblob. cbn [andb].
    destruct (Nat.ltb_spec 2048 (length s)); [reflexivity | lia].
  - intros s Hlen Hblob. rewrite mapValue_string_by_type.
    rewrite bool_decide_eq_false_2 by (intros Hc; exact (clob_not_blob _ Hc Hblob)).
    rewrite bool_decide_eq_true_2 by exact Hblob. cbn [andb].
    destruct (Nat.ltb_spec 2048 (length s)); [lia |].
    destruct (Nat.ltb_spec 4000 (length s)); [lia | reflexivity].
  - intros bytes Hlen. rewrite mapValue_buffer.
    destruct (Nat.ltb_spec 1024 (length bytes)); [reflexivity | lia].
  - intros bytes Hlen. rewrite mapValue_buffer.
    destruct (Nat.ltb_spec 1024 (length bytes)); [lia | reflexivity].
  - intros s Hlen Hclob. exists (firstn 4000 s).
    destruct (Hlong s) as [Hmap Hkept]; [lia | left; exact Hclob |].
    split; [exact Hmap |]. split; [exact Hkept | reflexivity].
  - reflexivity.
Qed.

(** ** NULL cells *)

Section RowFacts.
Context `{JsRuntime}.
Implicit Types (columns : list column) (result : gmap jsstring jsval).

Lemma mapValue_null (v : jsval) (oracleType : option jsstring) :
  isSqlNull v -> mapValue v oracleType = VNull.
Proof. intros [-> | ->]; reflexivity. Qed.

Lemma mapValue_defined (v : jsval) (oracleType : option jsstring) :
  mapValue v oracleType <> VUndefined.
Proof.
  unfold mapValue, dateToIso, truncateString.
  destruct v as [| | b | n | s | [t|] | bytes | items | props];
    repeat match goal with
           | |- context [if ?b then _ else _] => destruct b
           end; discriminate.
Qed.

Lemma mapObjectFrom_null cells columns result (key : jsstring) :
  isSqlNull (cellByName cells key) ->
  (exists c, In c columns /\ columnName c = key) \/ result !! key = Some VNull ->
  mapObjectFrom cells columns result !! key = Some VNull.
Proof.
  intros Hnull. revert result. induction columns as [|c columns IH]; intros result Hsrc.
  - destruct Hsrc as [(c & [] & _) | Hres]. exact Hres.
  - cbn [mapObjectFrom fold_left]. apply IH.
    destruct (decide (columnName c = key)) as [Hkey | Hkey].
    + right. rewrite Hkey, lookup_insert_eq. f_equal. apply mapValue_null. exact Hnull.
    + destruct Hsrc as [(c' & [<- | Hin] & Hc') | Hres].
      * congruence.
      * left. exists c'. split; assumption.
      * right. rewrite lookup_insert_ne by exact Hkey. exact Hres.
Qed.

Lemma mapObjectFrom_defined cells columns result :
  (forall k, result !! k <> Some VUndefined) ->
  forall k, mapObjectFrom cells columns result !! k <> Some VUndefined.
Proof.
  revert result. induction columns as [|c columns IH]; intros result Hres; [exact Hres |].
  cbn [mapObjectFrom fold_left]. apply IH. intros k.
  destruct (decide (columnName c = k)) as [<- | Hkey].
  - rewrite lookup_insert_eq. intros [= Hv]. exact (mapValue_defined _ _ Hv).
  - rewrite lookup_insert_ne by exact Hkey. apply Hres.
Qed.

Lemma mapObjectFrom_present cells columns result (key : jsstring) :
  (exists c, In c columns /\ columnName c = key) \/ is_Some (result !! key) ->
  is_Some (mapObjectFrom cells columns result !! key).
Proof.
  revert result. induction columns as [|c columns IH]; intros result Hsrc.
  - destruct Hsrc as [(c & [] & _) | Hres]. exact Hres.
  - cbn [mapObjectFrom fold_left]. apply IH.
    destruct (decide (columnName c = key)) as [Hkey | Hkey].
    + right. rewrite Hkey, lookup_insert_eq. eexists. reflexivity.
    + destruct Hsrc as [(c' & [<- | Hin] & Hc') | Hres].
      * congruence.
      * left. exists c'. split; assumption.
      * right. rewrite lookup_insert_ne by exact Hkey. exact Hres.
Qed.

Lemma mapArrayFrom_other cells i columns result (key : jsstring) :
  (forall c, In c columns -> columnName c <> key) ->
  mapArrayFrom cells i columns result !! key = result !! key.
Proof.
  revert i result. induction columns as [|c columns IH]; intros i result Hother;
    [reflexivity |].
  cbn [mapArrayFrom]. rewrite IH by (intros c' Hin; apply Hother; right; exact Hin).
  apply lookup_insert_ne. apply Hother. left. reflexivity.
Qed.

Lemma mapArrayFrom_null cells start columns result (i : nat) (column : column) :
  columns !! i = Some column ->
  isSqlNull (cellByIndex cells (start + i)) ->
  lastWithKey columns i (columnName column) ->
  mapArrayFrom cells start columns result !! columnName column = Some VNull.
Proof.
  revert start result i. induction columns as [|c columns IH];
    intros start result i Hcol Hnull Hlast; [discriminate |].
  cbn [mapArrayFrom]. destruct i as [|i].
  - injection Hcol as ->. rewrite Nat.add_0_r in Hnull.
    rewrite mapArrayFrom_other.
    + rewrite lookup_insert_eq. f_equal. apply mapValue_null. exact Hnull.
    + intros c' Hin. apply list_elem_of_In, list_elem_of_lookup in Hin.
      destruct Hin as [j Hj]. apply (Hlast (S j) c'); [lia | exact Hj].
  - apply (IH (S start) _ i).
    + exact Hcol.
    + replace (S start + i) with (start + S i) by lia. exact Hnull.
    + intros j c' Hij Hj. apply (Hlast (S j) c'); [lia | exact Hj].
Qed.

Lemma mapArrayFrom_defined cells start columns result :
  (forall k, result !! k <> Some VUndefined) ->
  forall k, mapArrayFrom cells start columns result !! k <> Some VUndefined.
Proof.
  revert start result. induction columns as [|c columns IH]; intros start result Hres;
    [exact Hres |].
  cbn [mapArrayFrom]. apply IH. intros k.
  destruct (decide (columnName c = k)) as [<- | Hkey].
  - rewrite lookup_insert_eq. intros [= Hv]. exact (mapValue_defined _ _ Hv).
  - rewrite lookup_insert_ne by exact Hkey. apply Hres.
Qed.

Lemma mapArrayFrom_present cells start columns result (key : jsstring) :
  (exists c, In c columns /\ columnName c = key) \/ is_Some (result !! key) ->
  is_Some (mapArrayFrom cells start columns result !! key).
Proof.
  revert start result. induction columns as [|c columns IH]; intros start result Hsrc.
  - destruct Hsrc as [(c & [] & _) | Hres]. exact Hres.
  - cbn [mapArrayFrom]. apply IH.
    destruct (decide (columnName c = key)) as [Hkey | Hkey].
    + right. rewrite Hkey, lookup_insert_eq. eexists. reflexivity.
    + destruct Hsrc as [(c' & [<- | Hin] & Hc') | Hres].
      * congruence.
      * left. exists c'. split; assumption.
      * right. rewrite lookup_insert_ne by exact Hkey. exact Hres.
Qed.

End RowFacts.




(** ** Connection checkout *)

Ltac run_eff :=
  cbv [mbind mret eff_bind eff_ret Eff.tryCatch Eff.bind Eff.ret Eff.throw
       Eff.perform Eff.getConnection_ Eff.execute Eff.close Eff.consoleError Eff.now
       fst snd app].

Section ConnectionFacts.
Context `{Driver}.

(** Every classification of a connection failure is of the connection class. *)
Lemma handleConnectionError_class (error : exn) :
  let e := handleConnectionError error in
  (err_code e = ErrorCode.CONNECTION_FAILED \/ err_code e = ErrorCode.AUTH_FAILED
   \/ err_code e = ErrorCode.TIMEOUT)
  /\ err_exitCode e = ExitCode.CONNECTION_ERROR.
Proof.
  unfold handleConnectionError.
  repeat match goal with
         | |- context [if ?b then _ else _] => destruct b
         end; cbn [err_code err_exitCode newOracleMapError]; split; auto.
Qed.

End ConnectionFacts.

(** C8, as the source has it: [getConnection] probes the first connection it
    checks out with a trivial query; when the probe fails it closes that
    connection, whatever the close does, and checks out once more, handing
    the second connection back without a probe; a failure of either checkout
    is thrown classified, as a connection-class [OracleMapError], and so is
    the use of a manager without a pool. *)
Theorem getConnection_probe_and_retry `{Driver} (w : world) :
  let run := getConnection true (w, []) in
  match pool_getConnection w with
  | (inl e, w1) =>
      run = (inl (Classified (handleConnectionError e)), (w1, [CallGetConnection]))
  | (inr c, w1) =>
      match conn_execute c PING_SQL [] None w1 with
      | (inr _, w2) =>
          run = (inr c, (w2, [CallGetConnection; CallExecute c PING_SQL [] None]))
      | (inl pingError, w2) =>
          let calls :=
            [CallGetConnection; CallExecute c PING_SQL [] None;
             CallConsoleError (js "[oracle-mcp-server] 连接 ping 失败，重新获取连接: "
                               ++ printed (exnMessage pingError));
             CallClose c; CallGetConnection] in
          match pool_getConnection (snd (conn_close c w2)) with
          | (inr again, w4) => run = (inr again, (w4, calls))
          | (inl e, w4) =>
              run = (inl (Classified (handleConnectionError e)), (w4, calls))
          end
      end
  end
  /\ (forall e s, run = (inl e, s) ->
        exists classified,
          e = Classified classified
          /\ err_exitCode classified = ExitCode.CONNECTION_ERROR)
  /\ (exists classified,
        getConnection false (w, []) = (inl (Classified classified), (w, []))
        /\ err_code classified = ErrorCode.CONNECTION_FAILED
        /\ err_exitCode classified = ExitCode.CONNECTION_ERROR).
Proof.
  cbn zeta.
  assert (Hrun :
    match pool_getConnection w with
    | (inl e, w1) =>
        getConnection true (w, [])
        = (inl (Classified (handleConnectionError e)), (w1, [CallGetConnection]))
    | (inr c, w1) =>
        match conn_execute c PING_SQL [] None w1 with
        | (inr _, w2) =>
            getConnection true (w, [])
            = (inr c, (w2, [CallGetConnection; CallExecute c PING_SQL [] None]))
        | (inl pingError, w2) =>
            match pool_getConnection (snd (conn_close c w2)) with
            | (inr again, w4) =>
                getConnection true (w, [])
                = (inr again,
                   (w4, [CallGetConnection; CallExecute c PING_SQL [] None;
                         CallConsoleError
                           (js "[oracle-mcp-server] 连接 ping 失败，重新获取连接: "
                            ++ printed (exnMessage pingError));
                         CallClose c; CallGetConnection]))
            | (inl e, w4) =>
                getConnection true (w, [])
                = (inl (Classified (handleConnectionError e)),
                   (w4, [CallGetConnection; CallExecute c PING_SQL [] None;
                         CallConsoleError
                           (js "[oracle-mcp-server] 连接 ping 失败，重新获取连接: "
                            ++ printed (exnMessage pingError));
                         CallClose c; CallGetConnection]))
            end
        end
    end).
  { unfold getConnection. cbn [negb]. run_eff.
    destruct (pool_getConnection w) as [[e | c] w1]; [reflexivity |].
    run_eff. destruct (conn_execute c PING_SQL [] None w1) as [[pingError | r] w2];
      [| reflexivity].
    run_eff. destruct (conn_close c w2) as [[closeError | []] w3]; run_eff;
      destruct (pool_getConnection w3) as [[e | again] w4]; reflexivity. }
  split; [exact Hrun |]. split.
  - intros e s Hthrown.
    destruct (pool_getConnection w) as [[e1 | c] w1].
    + rewrite Hrun in Hthrown. injection Hthrown as <- _.
      eexists. split; [reflexivity | apply handleConnectionError_class].
    + destruct (conn_execute c PING_SQL [] None w1) as [[pingError | r] w2].
      * destruct (pool_getConnection (snd (conn_close c w2))) as [[e2 | again] w4];
          rewrite Hrun in Hthrown; [| discriminate Hthrown].
        injection Hthrown as <- _.
        eexists. split; [reflexivity | apply handleConnectionError_class].
      * rewrite Hrun in Hthrown. discriminate Hthrown.
  - eexists. split; [reflexivity |]. split; reflexivity.
Qed.

(** C8 as stated fails: after a failed probe the connection of the retry is
    handed back unprobed, so not every checked-out connection is probed. *)
Lemma getConnection_retry_unprobed :
  @getConnection staleFirstDriver true (0, [])
  = (inr 1%N,
     (2, [CallGetConnection; CallExecute 0%N PING_SQL [] None;
          CallConsoleError
            (js "[oracle-mcp-server] 连接 ping 失败，重新获取连接: ORA-03113: end-of-file on communication channel");
          CallClose 0%N; CallGetConnection]))
  /\ ~ In (CallExecute 1%N PING_SQL [] None)
          (snd (snd (@getConnection staleFirstDriver true (0, [])))).
Proof.
  split; [vm_compute; reflexivity |].
  vm_compute. intros Hin.
  repeat (destruct Hin as [Hin | Hin]; [discriminate Hin |]). destruct Hin.
Qed.

(** ** Transactions of the write paths *)

Section TransactionFacts.
Context `{JsRuntime} `{Driver}.

(** [executeDml] on a statement the validator accepts, call by call. *)
Lemma executeDml_valid_run (conn : conn) (sql : jsstring) (binds : binds) (w : world) :
  dml_valid (validateDmlSql (VString sql)) = true ->
  let stmt := CallExecute conn sql binds (Some {| autoCommit := Some false |}) in
  let commit := CallExecute conn (js "COMMIT") [] None in
  let rollback := CallExecute conn (js "ROLLBACK") [] None in
  let run := executeDml conn (VString sql) binds (w, []) in
  match conn_execute conn sql binds (Some {| autoCommit := Some false |})
          (snd (date_now w)) with
  | (inl e, w2) =>
      run = (inl (Classified (handleDmlError e sql)),
             (snd (conn_execute conn (js "ROLLBACK") [] None w2), [stmt; rollback]))
  | (inr result, w2) =>
      match conn_execute conn (js "COMMIT") [] None w2 with
      | (inl e, w3) =>
          run = (inl (Classified (handleDmlError e sql)),
                 (snd (conn_execute conn (js "ROLLBACK") [] None w3),
                  [stmt; commit; rollback]))
      | (inr _, w3) =>
          run = (inr {| dml_success := true;
                        dml_result_verb := dml_verb (validateDmlSql (VString sql));
                        dml_rowsAffected := default 0%Z (rowsAffected result);
                        dml_executionTime := (fst (date_now w3) - fst (date_now w))%Z;
                        dml_sql := sql |},
                 (snd (date_now w3), [stmt; commit]))
      end
  end.
Proof.
  intros Hvalid. cbn zeta. unfold executeDml. rewrite Hvalid. cbn [negb]. run_eff.
  destruct (date_now w) as [startTime w1]. run_eff.
  destruct (conn_execute conn sql binds (Some {| autoCommit := Some false |}) w1)
    as [[e | result] w2]; run_eff.
  - destruct (conn_execute conn (js "ROLLBACK") [] None w2) as [[e' | r'] w3]; reflexivity.
  - destruct (conn_execute conn (js "COMMIT") [] None w2) as [[e | r] w3]; run_eff.
    + destruct (conn_execute conn (js "ROLLBACK") [] None w3) as [[e' | r'] w4]; reflexivity.
    + destruct (date_now w3) as [finish w4]. reflexivity.
Qed.

Lemma executeDml_invalid_run (conn : conn) (sql : jsval) (binds : binds) (w : world) :
  dml_valid (validateDmlSql sql) = false ->
  executeDml conn sql binds (w, [])
  = (inl (Classified (newOracleMapError ErrorCode.SQL_SYNTAX_ERROR
                        (dml_error (validateDmlSql sql)) [])), (w, [])).
Proof. intros Hinvalid. unfold executeDml. rewrite Hinvalid. reflexivity. Qed.

Lemma validateDmlSql_valid_string (sql : jsval) :
  dml_valid (validateDmlSql sql) = true -> exists text, sql = VString text.
Proof. destruct sql; try discriminate. eauto. Qed.

(** [insertRecord] once its checks have passed: one call, auto-commit on. *)
Lemma insertRecord_prepared_run (env : option jsstring) (conn : conn)
    (tableName : jsstring) (data : jsval) (sql : jsstring) (bindValues : binds)
    (w : world) :
  insertPrepared env tableName data sql bindValues ->
  let stmt := CallExecute conn sql bindValues (Some {| autoCommit := Some true |}) in
  let run := insertRecord env conn tableName data (w, []) in
  match conn_execute conn sql bindValues (Some {| autoCommit := Some true |})
          (snd (date_now w)) with
  | (inl e, w2) => run = (inl (Classified (handleDmlError e sql)), (w2, [stmt]))
  | (inr result, w2) =>
      run = (inr {| ins_success := true;
                    ins_table := toUpperCase tableName;
                    ins_rowsAffected := default 0%Z (rowsAffected result);
                    ins_executionTime := (fst (date_now w2) - fst (date_now w))%Z;
                    ins_columns := objectKeys data;
                    ins_sql := sql |},
             (snd (date_now w2), [stmt]))
  end.
Proof.
  intros (Hallowed & Htruthy & Hobject & Harray & Hkeys & placeholders & Hbinds & ->).
  cbn zeta. unfold insertRecord.
  rewrite Hallowed, Htruthy, Hobject, Harray. cbn [negb orb].
  destruct (objectKeys data) as [|k ks] eqn:Hk; [congruence |].
  cbn [length Nat.eqb]. rewrite Hbinds. run_eff.
  destruct (date_now w) as [startTime w1]. run_eff.
  destruct (conn_execute conn _ bindValues (Some {| autoCommit := Some true |}) w1)
    as [[e | result] w2]; run_eff; [reflexivity |].
  destruct (date_now w2) as [finish w3]. reflexivity.
Qed.

(** Whatever [insertRecord] throws before it reaches the driver, it has
    called nothing. *)
Lemma insertRecord_run_cases (env : option jsstring) (conn : conn)
    (tableName : jsstring) (data : jsval) (w : world) :
  (exists e, insertRecord env conn tableName data (w, []) = (inl e, (w, [])))
  \/ (exists sql bindValues, insertPrepared env tableName data sql bindValues).
Proof.
  unfold insertRecord, insertPrepared.
  destruct (allowed (checkTableAccess env tableName)); cbn [negb];
    [| left; eexists; reflexivity].
  destruct (truthy data); cbn [negb orb]; [| left; eexists; reflexivity].
  destruct (typeofObject data); cbn [negb orb]; [| left; eexists; reflexivity].
  destruct (isArray data); cbn [negb orb]; [left; eexists; reflexivity |].
  destruct (objectKeys data) as [|k ks] eqn:Hk; cbn [length Nat.eqb];
    [left; eexists; reflexivity |].
  destruct (collectBinds data (k :: ks) [] []) as [e | [placeholders bindValues]];
    [left; eexists; reflexivity |].
  right. eexists _, bindValues. repeat split; try discriminate.
  exists placeholders. split; reflexivity.
Qed.

End TransactionFacts.

Section LedgerFacts.

Lemma ledger_failed_call_keeps (sql : jsstring) (o : option ExecOptions) (w : ledger)
    (e : exn) (w' : ledger) :
  ledgerExecute sql o w = (inl e, w') -> fst (fst w') = fst (fst w).
Proof.
  destruct w as [[done pending] plan]. unfold ledgerExecute.
  destruct plan as [|[|] rest];
    repeat match goal with
           | |- context [if ?b then _ else _] => destruct b
           | |- context [match ?x with _ => _ end] => destruct x
           end; intros Hrun; try discriminate Hrun;
    injection Hrun as _ <-; reflexivity.
Qed.

Lemma ledger_open_statement_keeps (sql : jsstring) (w : ledger) (r : ExecResult)
    (w' : ledger) :
  dml_valid (validateDmlSql (VString sql)) = true ->
  ledgerExecute sql (Some {| autoCommit := Some false |}) w = (inr r, w') ->
  fst (fst w') = fst (fst w).
Proof.
  intros Hvalid. destruct w as [[done pending] plan]. unfold ledgerExecute.
  destruct (str_eqb_cases sql (js "COMMIT")) as [[_ ->] | [-> _]];
    [vm_compute in Hvalid; discriminate Hvalid |].
  destruct plan as [|[|] rest]; destruct (str_eqb sql (js "ROLLBACK"));
    intros Hrun; try discriminate Hrun; injection Hrun as _ <-; reflexivity.
Qed.

Lemma ledger_rollback_keeps (w : ledger) :
  fst (fst (snd (ledgerExecute (js "ROLLBACK") None w))) = fst (fst w).
Proof. destruct w as [[done pending] [|[|] rest]]; reflexivity. Qed.

End LedgerFacts.

(** The ledger is a transactional driver. *)
Definition ledgerTransactional : @TransactionalDriver asciiRuntime ledgerDriver := {|
  database := list jsstring;
  committed := fun w : @world ledgerDriver => fst (fst w);
  failed_call_keeps := fun _ sql _ o w e w' => ledger_failed_call_keeps sql o w e w';
  open_statement_keeps := fun _ sql _ w r w' => ledger_open_statement_keeps sql w r w';
  rollback_keeps := fun _ w => ledger_rollback_keeps w;
  clock_keeps := fun _ => eq_refl
|}.

(** C3, as the source has it: [executeDml] runs the accepted statement with
    auto-commit off, then COMMIT; when the statement or the COMMIT throws it
    issues ROLLBACK, whose own outcome is ignored, and throws the first
    error classified.  [insertRecord] runs its one statement with
    auto-commit on and issues neither COMMIT nor ROLLBACK; its error is
    thrown classified.  On a transactional driver the committed state is the
    one before the call whenever either operation throws. *)
Theorem dml_transaction_discipline `{JsRuntime} `{Driver} (conn : conn) (w : world) :
  (forall sql binds,
     dml_valid (validateDmlSql (VString sql)) = true ->
     let stmt := CallExecute conn sql binds (Some {| autoCommit := Some false |}) in
     let commit := CallExecute conn (js "COMMIT") [] None in
     let rollback := CallExecute conn (js "ROLLBACK") [] None in
     let run := executeDml conn (VString sql) binds (w, []) in
     match conn_execute conn sql binds (Some {| autoCommit := Some false |})
             (snd (date_now w)) with
     | (inl e, w2) =>
         run = (inl (Classified (handleDmlError e sql)),
                (snd (conn_execute conn (js "ROLLBACK") [] None w2), [stmt; rollback]))
     | (inr result, w2) =>
         match conn_execute conn (js "COMMIT") [] None w2 with
         | (inl e, w3) =>
             run = (inl (Classified (handleDmlError e sql)),
                    (snd (conn_execute conn (js "ROLLBACK") [] None w3),
                     [stmt; commit; rollback]))
         | (inr _, w3) =>
             fst run = inr {| dml_success := true;
                              dml_result_verb := dml_verb (validateDmlSql (VString sql));
                              dml_rowsAffected := default 0%Z (rowsAffected result);
                              dml_executionTime :=
                                (fst (date_now w3) - fst (date_now w))%Z;
                              dml_sql := sql |}
             /\ snd (snd run) = [stmt; commit]
         end
     end)
  /\ (forall env tableName data sql bindValues,
        insertPrepared env tableName data sql bindValues ->
        let stmt := CallExecute conn sql bindValues (Some {| autoCommit := Some true |}) in
        let run := insertRecord env conn tableName data (w, []) in
        snd (snd run) = [stmt]
        /\ match conn_execute conn sql bindValues (Some {| autoCommit := Some true |})
                   (snd (date_now w)) with
           | (inl e, w2) => run = (inl (Classified (handleDmlError e sql)), (w2, [stmt]))
           | (inr result, _) => exists done, fst run = inr done /\ ins_success done = true
           end)
  /\ (forall (T : TransactionalDriver) sql binds e s,
        executeDml conn sql binds (w, []) = (inl e, s) ->
        committed (fst s) = committed w /\ exists classified, e = Classified classified)
  /\ (forall (T : TransactionalDriver) env tableName data e s,
        insertRecord env conn tableName data (w, []) = (inl e, s) ->
        committed (fst s) = committed w).
Proof.
  split; [| split; [| split]].
  - intros sql binds Hvalid. cbn zeta.
    pose proof (executeDml_valid_run conn sql binds w Hvalid) as Hrun. cbn zeta in Hrun.
    destruct (conn_execute conn sql binds _ (snd (date_now w))) as [[e | result] w2];
      [exact Hrun |].
    destruct (conn_execute conn (js "COMMIT") [] None w2) as [[e | r] w3]; [exact Hrun |].
    rewrite Hrun. split; reflexivity.
  - intros env tableName data sql bindValues Hprepared. cbn zeta.
    pose proof (insertRecord_prepared_run env conn tableName data sql bindValues w Hprepared)
      as Hrun. cbn zeta in Hrun.
    destruct (conn_execute conn sql bindValues _ (snd (date_now w))) as [[e | result] w2];
      rewrite Hrun; (split; [reflexivity |]); [reflexivity |].
    eexists. split; reflexivity.
  - intros T sql binds e s Hthrown.
    destruct (dml_valid (validateDmlSql sql)) eqn:Hvalid.
    + destruct (validateDmlSql_valid_string sql Hvalid) as [text ->].
      pose proof (executeDml_valid_run conn text binds w Hvalid) as Hrun. cbn zeta in Hrun.
      destruct (conn_execute conn text binds _ (snd (date_now w)))
        as [[e1 | result] w2] eqn:Hstmt.
      * rewrite Hrun in Hthrown. injection Hthrown as <- <-. cbn [fst].
        split; [| eexists; reflexivity].
        rewrite rollback_keeps, (failed_call_keeps _ _ _ _ _ _ _ Hstmt). apply clock_keeps.
      * destruct (conn_execute conn (js "COMMIT") [] None w2) as [[e2 | r] w3] eqn:Hcommit;
          rewrite Hrun in Hthrown; [| discriminate Hthrown].
        injection Hthrown as <- <-. cbn [fst]. split; [| eexists; reflexivity].
        rewrite rollback_keeps, (failed_call_keeps _ _ _ _ _ _ _ Hcommit),
          (open_statement_keeps _ _ _ _ _ _ Hvalid Hstmt).
        apply clock_keeps.
    + rewrite (executeDml_invalid_run conn sql binds w Hvalid) in Hthrown.
      injection Hthrown as <- <-. split; [reflexivity | eexists; reflexivity].
  - intros T env tableName data e s Hthrown.
    destruct (insertRecord_run_cases env conn tableName data w)
      as [[e0 Hearly] | (sql & bindValues & Hprepared)].
    + rewrite Hearly in Hthrown. injection Hthrown as _ <-. reflexivity.
    + pose proof (insertRecord_prepared_run env conn tableName data sql bindValues w Hprepared)
        as Hrun. cbn zeta in Hrun.
      destruct (conn_execute conn sql bindValues _ (snd (date_now w)))
        as [[e1 | result] w2] eqn:Hstmt; rewrite Hrun in Hthrown; [| discriminate Hthrown].
      injection Hthrown as _ <-. cbn [fst].
      rewrite (failed_call_keeps _ _ _ _ _ _ _ Hstmt). apply clock_keeps.
Qed.

Lemma dml_transaction_discipline_witness :
  fst (fst (fst (snd
    (@executeDml asciiRuntime ledgerDriver 0%N
       (VString (js "UPDATE T SET A=1 WHERE ID=1")) []
       (([js "seed"], [js "seed"], [true; false]), [])))))
  = [js "seed"].
Proof.
  destruct (@dml_transaction_discipline asciiRuntime ledgerDriver 0%N
              ([js "seed"], [js "seed"], [true; false]))
    as (_ & _ & Hkeeps & _).
  destruct (@executeDml asciiRuntime ledgerDriver 0%N
              (VString (js "UPDATE T SET A=1 WHERE ID=1")) []
              (([js "seed"], [js "seed"], [true; false]), []))
    as [[e | done] s] eqn:Hrun.
  - destruct (Hkeeps ledgerTransactional _ _ _ _ Hrun) as [Hsame _]. exact Hsame.
  - vm_compute in Hrun. discriminate Hrun.
Defined.

(** C3 as stated fails for [insertRecord]: its statement runs with
    auto-commit on, no COMMIT follows a success and no ROLLBACK a failure. *)
Lemma insertRecord_autocommit_no_rollback :
  snd (snd (@insertRecord asciiRuntime ledgerDriver None 0%N (js "employees")
              (VObject [(js "ID", VNumber 1)]) (([], [], []), [])))
  = [CallExecute 0%N (js "INSERT INTO EMPLOYEES (ID) VALUES (:ID)")
       [(js "ID", BindValue (VNumber 1))] (Some {| autoCommit := Some true |})]
  /\ @insertRecord asciiRuntime ledgerDriver None 0%N (js "employees")
       (VObject [(js "ID", VNumber 1)]) (([], [], [false]), [])
     = (inl (Classified
               (handleDmlError
                  (NativeError (Some (js "ORA-00001: unique constraint violated")))
                  (js "INSERT INTO EMPLOYEES (ID) VALUES (:ID)"))),
        (([], [], []),
         [CallExecute 0%N (js "INSERT INTO EMPLOYEES (ID) VALUES (:ID)")
            [(js "ID", BindValue (VNumber 1))] (Some {| autoCommit := Some true |})])).
Proof. split; vm_compute; reflexivity. Qed.

(** * Further properties of the engine *)

(** ** The validators, characterised *)

Section ValidatorFacts.
Context `{JsRuntime}.

Lemma startsWith_select_nonempty (sql : jsstring) :
  startsWith (toUpperCase (trim sql)) (js "SELECT") = true -> sql <> [].
Proof.
  intros Hsel ->. change (trim []) with (@nil codeunit) in Hsel.
  rewrite toUpperCase_nil in Hsel. discriminate Hsel.
Qed.

Lemma dangerous_clean (sql : jsstring) :
  noDangerousKeyword sql <->
  List.find (fun keyword => re_test (readKeywordRegex keyword) sql) dangerousKeywords = None.
Proof.
  rewrite find_none_all, List.Forall_forall. unfold noDangerousKeyword. split.
  - intros Hclean kw Hin.
    destruct (re_test (readKeywordRegex kw) sql) eqn:Ht; [| reflexivity].
    apply readKeywordRegex_spec in Ht. destruct (Hclean kw Hin Ht).
  - intros Hnone kw Hin Hstand. apply readKeywordRegex_spec in Hstand.
    specialize (Hnone kw Hin). cbn beta in Hnone. congruence.
Qed.

Lemma insert_verb_found (upperSql : jsstring) :
  startsWith upperSql (js "INSERT") = true ->
  List.find (fun verb => startsWith upperSql verb) DML_ALLOWED_VERBS = Some (js "INSERT").
Proof. intros Hins. unfold DML_ALLOWED_VERBS. cbn [List.find]. rewrite Hins. reflexivity. Qed.

Lemma blacklist_clean_iff (sql : jsstring) :
  noBlacklistedKeyword sql <->
  List.find (fun keyword => re_test (dmlKeywordRegex keyword) (trim sql))
    DML_BLACKLIST_KEYWORDS = None.
Proof.
  split; [apply blacklist_clean |].
  rewrite find_none_all, List.Forall_forall. intros Hnone kw Hin Hstand.
  apply (blacklist_test kw sql Hin) in Hstand. specialize (Hnone kw Hin).
  cbn beta in Hnone. congruence.
Qed.

Lemma allowed_verb_cases (upperSql verb : jsstring) :
  List.find (fun verb => startsWith upperSql verb) DML_ALLOWED_VERBS = Some verb ->
  (verb = js "INSERT" /\ startsWith upperSql (js "INSERT") = true)
  \/ (verb = js "UPDATE" /\ startsWith upperSql (js "UPDATE") = true).
Proof.
  unfold DML_ALLOWED_VERBS. cbn [List.find].
  destruct (startsWith upperSql (js "INSERT")) eqn:Hi; [intros [= <-]; left; auto |].
  destruct (startsWith upperSql (js "UPDATE")) eqn:Hu; [intros [= <-]; right; auto |].
  discriminate.
Qed.

Lemma isInsertStatement_nonempty sql : isInsertStatement sql -> str_eqb sql [] = false.
Proof.
  unfold isInsertStatement. intros Hins. destruct sql as [|c sql]; [| reflexivity].
  change (trim []) with (@nil codeunit) in Hins. rewrite toUpperCase_nil in Hins.
  discriminate.
Qed.

End ValidatorFacts.

(** The read validator accepts exactly the texts that start with SELECT,
    once trimmed and upper-cased, and in which no dangerous keyword stands
    alone; it reports no error exactly when it accepts. *)
Theorem validateSql_valid_iff `{JsRuntime} (sql : jsval) :
  (valid (validateSql sql) = true
   <-> exists text,
         sql = VString text
         /\ startsWith (toUpperCase (trim text)) (js "SELECT") = true
         /\ noDangerousKeyword text)
  /\ (valid (validateSql sql) = true <-> error (validateSql sql) = None).
Proof.
  destruct sql as [| | b | n | text | t | bytes | items | props];
    try (split; split; [discriminate | intros (text & Hs & _); discriminate Hs
                        | discriminate | discriminate]).
  destruct text as [|c text].
  - split; split; try discriminate.
    intros (text & [= <-] & Hsel & _). exfalso.
    exact (startsWith_select_nonempty [] Hsel eq_refl).
  - rewrite validateSql_unfold by discriminate.
    destruct (startsWith (toUpperCase (trim (c :: text))) (js "SELECT")) eqn:Hsel.
    + destruct (List.find _ dangerousKeywords) as [kw|] eqn:Hfind.
      * split; split; try discriminate.
        intros (text' & [= <-] & _ & Hclean). apply dangerous_clean in Hclean. congruence.
      * split; split; try reflexivity.
        intros _. exists (c :: text). split; [reflexivity |]. split; [exact Hsel |].
        apply dangerous_clean. exact Hfind.
    + split; split; try discriminate.
      intros (text' & [= <-] & Hsel' & _). congruence.
Qed.


(** ** Whitelist decisions *)

Section AccessFacts.
Context `{JsRuntime}.

Lemma newSet_from (items acc : list jsstring) (x : jsstring) :
  x ∈ fold_left (fun acc y => if bool_decide (y ∈ acc) then acc else acc ++ [y]) items acc
  <-> x ∈ acc \/ x ∈ items.
Proof.
  revert acc. induction items as [|y items IH]; intros acc; cbn [fold_left].
  - rewrite elem_of_nil. tauto.
  - rewrite IH, elem_of_cons. destruct (bool_decide (y ∈ acc)) eqn:Hy.
    + apply bool_decide_eq_true in Hy. split; [tauto |].
      intros [Hx | [-> | Hx]]; tauto.
    + rewrite elem_of_app, list_elem_of_singleton. tauto.
Qed.

Lemma newSet_elem (items : list jsstring) (x : jsstring) : x ∈ newSet items <-> x ∈ items.
Proof. unfold newSet. rewrite newSet_from, elem_of_nil. tauto. Qed.

Lemma newSet_from_NoDup (items acc : list jsstring) :
  NoDup acc ->
  NoDup (fold_left (fun acc y => if bool_decide (y ∈ acc) then acc else acc ++ [y])
           items acc).
Proof.
  revert acc. induction items as [|y items IH]; intros acc Hacc; cbn [fold_left];
    [exact Hacc |].
  apply IH. destruct (bool_decide (y ∈ acc)) eqn:Hy; [exact Hacc |].
  apply bool_decide_eq_false in Hy. apply NoDup_app. split; [exact Hacc |].
  split; [| apply NoDup_singleton].
  intros z Hz Hz'. apply list_elem_of_singleton in Hz'. subst z. exact (Hy Hz).
Qed.

End AccessFacts.

(** With the whitelist variable unset or blank every table is allowed;
    otherwise a table is allowed exactly when its upper-cased name is one of
    the variable's comma-separated pieces, trimmed and upper-cased: the
    comparison ignores case and surrounding white space, and the set handed
    out holds each allowed name once. *)
Theorem checkTableAccess_iff `{JsRuntime} (env : option jsstring) (tableName : jsstring) :
  match env with
  | None => checkTableAccess env tableName = {| allowed := true; access_message := None |}
  | Some whitelist =>
      (trim whitelist = [] ->
       checkTableAccess env tableName = {| allowed := true; access_message := None |})
      /\ (trim whitelist <> [] ->
          (allowed (checkTableAccess env tableName) = true <-> whitelisted whitelist tableName)
          /\ (allowed (checkTableAccess env tableName) = true
              <-> access_message (checkTableAccess env tableName) = None)
          /\ exists names, getTableWhitelist env = Some names /\ NoDup names)
  end.
Proof.
  destruct env as [whitelist|]; [| reflexivity].
  unfold checkTableAccess, getTableWhitelist. split.
  - intros Hblank. rewrite Hblank, str_eqb_refl, orb_true_r. reflexivity.
  - intros Hblank.
    assert (Hne : str_eqb whitelist [] = false).
    { apply str_eqb_false. intros ->. exact (Hblank eq_refl). }
    rewrite Hne, (str_eqb_false _ _ Hblank). cbn [orb].
    set (tables := List.filter _ _).
    assert (Hin : toUpperCase tableName ∈ newSet tables <-> whitelisted whitelist tableName).
    { rewrite newSet_elem. subst tables. unfold whitelisted.
      rewrite list_elem_of_In, filter_In, in_map_iff. split.
      - intros [(piece & Hup & Hpiece) Hlen]. exists piece. split; [exact Hpiece |].
        rewrite Hup. split; [| reflexivity].
        intros Hnil. rewrite Hnil in Hlen. discriminate Hlen.
      - intros (piece & Hpiece & Hnonempty & Hup). split; [exists piece; auto |].
        rewrite <- Hup. destruct (toUpperCase (trim piece)); [congruence | reflexivity]. }
    unfold setHas. destruct (bool_decide (toUpperCase tableName ∈ newSet tables)) eqn:Hhas.
    + apply bool_decide_eq_true in Hhas. cbn [allowed access_message].
      split; [tauto |]. split; [tauto |].
      eexists. split; [reflexivity | apply newSet_from_NoDup, NoDup_nil_2].
    + apply bool_decide_eq_false in Hhas. cbn [allowed access_message].
      split; [split; [discriminate | tauto] |]. split; [split; discriminate |].
      eexists. split; [reflexivity | apply newSet_from_NoDup, NoDup_nil_2].
Qed.

(** ** Exit codes and classifications *)

(** Every error code falls in exactly one exit class by its hundreds, codes
    outside 100..499 exit as unknown, and no error code exits as success. *)
Theorem getExitCode_classes (errorCode : Z) :
  ((100 <= errorCode < 200)%Z -> getExitCode errorCode = ExitCode.CONNECTION_ERROR)
  /\ ((200 <= errorCode < 300)%Z -> getExitCode errorCode = ExitCode.CONFIG_ERROR)
  /\ ((300 <= errorCode < 400)%Z -> getExitCode errorCode = ExitCode.QUERY_ERROR)
  /\ ((400 <= errorCode < 500)%Z -> getExitCode errorCode = ExitCode.OUTPUT_ERROR)
  /\ ((errorCode < 100 \/ 500 <= errorCode)%Z ->
      getExitCode errorCode = ExitCode.UNKNOWN_ERROR)
  /\ getExitCode errorCode <> ExitCode.SUCCESS.
Proof.
  unfold getExitCode.
  destruct (Z.leb_spec 100 errorCode), (Z.ltb_spec errorCode 200),
    (Z.leb_spec 200 errorCode), (Z.ltb_spec errorCode 300),
    (Z.leb_spec 300 errorCode), (Z.ltb_spec errorCode 400),
    (Z.leb_spec 400 errorCode), (Z.ltb_spec errorCode 500);
    cbn [andb]; repeat split; intros; try lia; try reflexivity; discriminate.
Qed.

(** An [OracleMapError] always carries a message: the one given, or, when it
    is omitted or empty, the table's message for the code, or the message of
    the unknown error for a code the table lacks; its exit code is the one
    of its code. *)
Theorem newOracleMapError_message (code : Z) (message : option jsstring)
    (details : list (jsstring * jsstring)) :
  let e := newOracleMapError code message details in
  err_message e <> []
  /\ (forall m, message = Some m -> m <> [] -> err_message e = m)
  /\ (message = None \/ message = Some [] ->
      err_message e = default (js "未知错误") (messageOf code ErrorMessages))
  /\ err_exitCode e = getExitCode code
  /\ err_code e = code.
Proof.
  cbn zeta.
  assert (Hdefault : default (js "未知错误") (messageOf code ErrorMessages) <> []).
  { unfold ErrorMessages. cbn [messageOf].
    repeat match goal with
           | |- context [if ?b then _ else _] => destruct b
           end; cbn [default from_option]; vm_compute; discriminate. }
  unfold newOracleMapError. cbn [err_message err_exitCode err_code].
  split; [| split; [| split; [| split; reflexivity]]].
  - destruct message as [m|]; [| exact Hdefault].
    destruct (str_eqb_cases m []) as [[-> _] | [-> Hm]]; assumption.
  - intros m -> Hm. rewrite (str_eqb_false _ _ Hm). reflexivity.
  - intros [-> | ->]; [reflexivity |]. rewrite str_eqb_refl. reflexivity.
Qed.

Section ClassifierFacts.
Context `{JsRuntime}.

Lemma handleDmlError_codes (error : exn) (sql : jsstring) :
  let e := handleDmlError error sql in
  (err_code e = ErrorCode.TABLE_NOT_FOUND \/ err_code e = ErrorCode.SQL_SYNTAX_ERROR
   \/ err_code e = ErrorCode.QUERY_EXECUTION_ERROR)
  /\ err_exitCode e = ExitCode.QUERY_ERROR
  /\ err_details e = [(js "oracleError", messageOrEmpty error); (js "sql", sql)].
Proof.
  unfold handleDmlError. cbn zeta.
  repeat match goal with
         | |- context [if ?b then _ else _] => destruct b
         end; cbn [err_code err_exitCode err_details newOracleMapError]; auto.
Qed.

End ClassifierFacts.

(** Every error of a write path is classified in the query class: the code
    is 301, 302 or 303 and the exit code 3; a message that carries
    ORA-00942 is a missing table whatever else it carries, and a message
    with none of the known codes is an execution failure; the details keep
    the native message and the statement. *)
Theorem handleDmlError_query_class `{JsRuntime} (error : exn) (sql : jsstring) :
  let e := handleDmlError error sql in
  (err_code e = ErrorCode.TABLE_NOT_FOUND \/ err_code e = ErrorCode.SQL_SYNTAX_ERROR
   \/ err_code e = ErrorCode.QUERY_EXECUTION_ERROR)
  /\ err_exitCode e = ExitCode.QUERY_ERROR
  /\ err_details e = [(js "oracleError", messageOrEmpty error); (js "sql", sql)]
  /\ (includes (messageOrEmpty error) (js "ORA-00942") = true ->
      err_code e = ErrorCode.TABLE_NOT_FOUND)
  /\ (Forall (fun code => includes (messageOrEmpty error) code = false)
        [js "ORA-00942"; js "ORA-00904"; js "ORA-01400"; js "ORA-00001"; js "ORA-02291"] ->
      err_code e = ErrorCode.QUERY_EXECUTION_ERROR
      /\ err_message e = js "DML 执行失败: " ++ messageOrEmpty error).
Proof.
  cbn zeta. destruct (handleDmlError_codes error sql) as (Hcode & Hexit & Hdetails).
  split; [exact Hcode |]. split; [exact Hexit |]. split; [exact Hdetails |]. split.
  - intros Hora. unfold handleDmlError. cbn zeta. rewrite Hora. reflexivity.
  - intros Hnone. unfold handleDmlError. cbn zeta.
    repeat match goal with
           | Hall : Forall _ (_ :: _) |- _ =>
               let Hhead := fresh "Hhead" in
               apply List.Forall_cons_iff in Hall; destruct Hall as [Hhead Hall];
               cbn beta in Hhead; rewrite Hhead
           end.
    unfold newOracleMapError. cbn [err_code err_message]. split; [reflexivity |].
    rewrite str_eqb_false; [reflexivity |]. eval_js. discriminate.
Qed.

(** Every connection failure is classified in the connection class: the
    code is 101, 102 or 103 and the exit code 1; the details keep the native
    message, the empty string when the error carries none. *)
Theorem handleConnectionError_connection_class (error : exn) :
  let e := handleConnectionError error in
  (err_code e = ErrorCode.CONNECTION_FAILED \/ err_code e = ErrorCode.AUTH_FAILED
   \/ err_code e = ErrorCode.TIMEOUT)
  /\ err_exitCode e = ExitCode.CONNECTION_ERROR
  /\ (exists more, err_details e = (js "oracleError", messageOrEmpty error) :: more)
  /\ (exnMessage error = None -> err_code e = ErrorCode.CONNECTION_FAILED).
Proof.
  cbn zeta. split; [apply handleConnectionError_class |].
  split; [apply handleConnectionError_class |]. split.
  - unfold handleConnectionError.
    repeat match goal with
           | |- context [if ?b then _ else _] => destruct b
           end; cbn [err_details newOracleMapError]; eexists; reflexivity.
  - intros Hnone. unfold handleConnectionError, messageOrEmpty. rewrite Hnone.
    vm_compute. reflexivity.
Qed.

(** ** Sizes and keys of normalized values *)

Section MapperFacts.
Context `{JsRuntime}.
Implicit Types (columns : list column) (cells : list jsval).

Lemma list_ind3 {A} (P : list A -> Prop) :
  P [] -> (forall a, P [a]) -> (forall a b, P [a; b]) ->
  (forall a b c l, P l -> P (a :: b :: c :: l)) ->
  forall l, P l.
Proof.
  intros H0 H1 H2 H3.
  fix IH 1. intros [|a [|b [|c l]]]; [exact H0 | apply H1 | apply H2 |].
  apply H3. apply IH.
Qed.

(** Base64 writes four characters for every three bytes, the last group
    padded. *)
Lemma base64_length (bytes : list N) :
  length (base64 bytes) = 4 * ((length bytes + 2) / 3).
Proof.
  induction bytes as [| a | a b | a b c l IH] using list_ind3; try reflexivity.
  cbn [base64 app length]. rewrite IH.
  replace (S (S (S (length l))) + 2) with (length l + 2 + 1 * 3) by lia.
  rewrite Nat.div_add by discriminate. lia.
Qed.

Lemma suffix_length : length TRUNCATE_SUFFIX = 9.
Proof. reflexivity. Qed.

Lemma truncateString_bound (s : jsstring) (n : nat) :
  length (truncateString s n) <= n + 9
  /\ (exists kept, kept `prefix_of` s
      /\ (truncateString s n = kept \/ truncateString s n = kept ++ TRUNCATE_SUFFIX)).
Proof.
  unfold truncateString, substring0. destruct (Nat.leb_spec (length s) n).
  - split; [lia |]. exists s. split; [reflexivity | left; reflexivity].
  - split.
    + rewrite length_app, length_firstn, suffix_length. lia.
    + exists (firstn n s). split; [| right; reflexivity].
      exists (skipn n s). symmetry. apply firstn_skipn.
Qed.

Lemma mapObjectFrom_keys (cells : gmap jsstring jsval) columns (result : gmap jsstring jsval) (key : jsstring) :
  is_Some (mapObjectFrom cells columns result !! key)
  <-> (exists c, In c columns /\ columnName c = key) \/ is_Some (result !! key).
Proof.
  split; [| apply mapObjectFrom_present].
  revert result. induction columns as [|c columns IH]; intros result; [right; assumption |].
  cbn [mapObjectFrom fold_left]. intros Hsome. apply IH in Hsome.
  destruct Hsome as [(c' & Hin & Hc') | Hsome].
  - left. exists c'. split; [right; exact Hin | exact Hc'].
  - destruct (decide (columnName c = key)) as [Hkey | Hkey].
    + left. exists c. split; [left; reflexivity | exact Hkey].
    + right. rewrite lookup_insert_ne in Hsome by exact Hkey. exact Hsome.
Qed.

Lemma mapArrayFrom_keys cells (start : nat) columns (result : gmap jsstring jsval)
    (key : jsstring) :
  is_Some (mapArrayFrom cells start columns result !! key)
  <-> (exists c, In c columns /\ columnName c = key) \/ is_Some (result !! key).
Proof.
  split; [| apply mapArrayFrom_present].
  revert start result. induction columns as [|c columns IH]; intros start result;
    [right; assumption |].
  cbn [mapArrayFrom]. intros Hsome. apply IH in Hsome.
  destruct Hsome as [(c' & Hin & Hc') | Hsome].
  - left. exists c'. split; [right; exact Hin | exact Hc'].
  - destruct (decide (columnName c = key)) as [Hkey | Hkey].
    + left. exists c. split; [left; reflexivity | exact Hkey].
    + right. rewrite lookup_insert_ne in Hsome by exact Hkey. exact Hsome.
Qed.

Lemma lookupType_in (key value : jsstring) (table : list (jsstring * jsstring)) :
  lookupType key table = Some value -> In (key, value) table.
Proof.
  induction table as [|[k v] table IH]; [discriminate |].
  cbn [lookupType]. destruct (str_eqb_cases key k) as [[-> ->] | [-> _]].
  - intros [= ->]. left. reflexivity.
  - intros Hrest. right. apply IH. exact Hrest.
Qed.

End MapperFacts.

(** Whatever the column type, [mapValue] returns a string either as it is,
    and then it has at most 4000 code units, or cut to its first 4000 code
    units (2048 under a binary type) and followed by the marker, and then it
    was longer than that; the result never exceeds 4009 code units.  A
    Buffer of at most 1024 bytes becomes its base64 text, four characters
    for every three bytes; a longer one becomes the base64 text of its first
    1024 bytes followed by the marker, 1377 characters in all. *)
Theorem mapValue_bounded `{JsRuntime} (oracleType : option jsstring) :
  (forall s, exists out,
      mapValue (VString s) oracleType = VString out
      /\ ((out = s /\ length s <= 4000)
          \/ (exists n,
                (n = 4000 \/ (n = 2048 /\ blobLike oracleType))
                /\ n < length s
                /\ out = firstn n s ++ TRUNCATE_SUFFIX
                /\ length out = n + 9))
      /\ length out <= 4009)
  /\ (forall bytes, exists out,
        mapValue (VBuffer bytes) oracleType = VString out
        /\ ((length bytes <= 1024 /\ out = base64 bytes
             /\ length out = 4 * ((length bytes + 2) / 3))
            \/ (1024 < length bytes
                /\ out = base64 (firstn 1024 bytes) ++ TRUNCATE_SUFFIX
                /\ length out = 1377))
        /\ length out <= 1377).
Proof.
  assert (Hcut : forall s n, n < length s ->
            length (firstn n s ++ TRUNCATE_SUFFIX) = n + 9).
  { intros s n Hn. rewrite length_app, length_firstn, suffix_length. lia. }
  split.
  - intros s. rewrite mapValue_string_by_type.
    assert (Hplain : exists out,
              VString (truncateString s 4000) = VString out
              /\ ((out = s /\ length s <= 4000)
                  \/ (exists n,
                        (n = 4000 \/ (n = 2048 /\ blobLike oracleType))
                        /\ n < length s
                        /\ out = firstn n s ++ TRUNCATE_SUFFIX
                        /\ length out = n + 9))
              /\ length out <= 4009).
    { destruct (Nat.le_gt_cases (length s) 4000) as [Hshort | Hlong].
      - exists s. rewrite truncateString_short by exact Hshort.
        split; [reflexivity |]. split; [left; split; [reflexivity | exact Hshort] | lia].
      - exists (firstn 4000 s ++ TRUNCATE_SUFFIX).
        rewrite truncateString_long by exact Hlong. split; [reflexivity |].
        split; [| rewrite Hcut by exact Hlong; lia].
        right. exists 4000. split; [left; reflexivity |]. split; [exact Hlong |].
        split; [reflexivity | apply Hcut; exact Hlong]. }
    destruct (bool_decide (clobLike oracleType)); [exact Hplain |].
    destruct (bool_decide (blobLike oracleType)) eqn:Hblob; cbn [andb].
    + apply bool_decide_eq_true in Hblob.
      destruct (Nat.ltb_spec 2048 (length s)) as [Hlong | Hshort].
      * exists (firstn 2048 s ++ TRUNCATE_SUFFIX). split; [reflexivity |].
        split; [| rewrite Hcut by exact Hlong; lia].
        right. exists 2048. split; [right; split; [reflexivity | exact Hblob] |].
        split; [exact Hlong |]. split; [reflexivity | apply Hcut; exact Hlong].
      * destruct (Nat.ltb_spec 4000 (length s)); [lia |].
        exists s. split; [reflexivity |]. split; [left; split; [reflexivity | lia] | lia].
    + destruct (Nat.ltb_spec 4000 (length s)) as [Hlong | Hshort]; [exact Hplain |].
      exists s. split; [reflexivity |].
      split; [left; split; [reflexivity | exact Hshort] | lia].
  - intros bytes. rewrite mapValue_buffer.
    destruct (Nat.ltb_spec 1024 (length bytes)) as [Hlong | Hshort].
    + eexists. split; [reflexivity |].
      assert (Hlen : length (base64 (firstn 1024 bytes) ++ TRUNCATE_SUFFIX) = 1377).
      { rewrite length_app, base64_length, length_firstn, suffix_length.
        replace (Nat.min 1024 (length bytes)) with 1024 by lia. reflexivity. }
      split; [right; split; [exact Hlong | split; [reflexivity | exact Hlen]] | lia].
    + eexists. split; [reflexivity |].
      split; [left; split; [exact Hshort | split; [reflexivity | apply base64_length]] |].
      rewrite base64_length.
      assert ((length bytes + 2) / 3 <= 342); [| lia].
      apply Nat.Div0.div_le_upper_bound. lia.
Qed.


(** [mapOracleType] always answers with one of the six valid JavaScript type
    names: a missing or empty type and an unknown one give [object], every
    type whose base name starts with TIMESTAMP gives [Date], and a known
    base name gives the entry of the table. *)
Theorem mapOracleType_valid `{JsRuntime} (oracleType : option jsstring) :
  isValidJsType (mapOracleType oracleType) = true
  /\ (oracleType = None \/ oracleType = Some [] -> mapOracleType oracleType = js "object")
  /\ (forall t, oracleType = Some t -> t <> [] ->
      let baseType := trim (hd [] (split_on 0x28%N (toUpperCase t))) in
      (startsWith baseType (js "TIMESTAMP") = true -> mapOracleType oracleType = js "Date")
      /\ (startsWith baseType (js "TIMESTAMP") = false ->
          mapOracleType oracleType
          = default (js "object") (lookupType baseType TYPE_MAPPING))).
Proof.
  split; [| split].
  - unfold mapOracleType. destruct oracleType as [t|]; [| vm_compute; reflexivity].
    destruct (str_eqb t []); [vm_compute; reflexivity |].
    destruct (startsWith _ (js "TIMESTAMP")); [vm_compute; reflexivity |].
    destruct (lookupType _ TYPE_MAPPING) as [jsType|] eqn:Hlook; [| vm_compute; reflexivity].
    apply lookupType_in in Hlook. unfold TYPE_MAPPING in Hlook.
    repeat (destruct Hlook as [[= _ <-] | Hlook]; [vm_compute; reflexivity |]).
    destruct Hlook.
  - intros [-> | ->]; reflexivity.
  - intros t -> Hne. cbn zeta. unfold mapOracleType. rewrite (str_eqb_false _ _ Hne). split.
    + intros ->. reflexivity.
    + intros ->. destruct (lookupType _ TYPE_MAPPING) as [jsType|] eqn:Hlook; [| reflexivity].
      apply lookupType_in in Hlook. unfold TYPE_MAPPING in Hlook.
      repeat (destruct Hlook as [[= _ <-] | Hlook]; [vm_compute; reflexivity |]).
      destruct Hlook.
Qed.

(** ** What reaches the driver *)

(** Releasing never throws: with no connection nothing is called, and
    otherwise the connection is closed once, a failure of the close being
    logged and swallowed. *)
Theorem releaseConnection_never_throws `{Driver} (connection : option conn)
    (w : world) (log : list call) :
  let run := releaseConnection connection (w, log) in
  fst run = inr tt
  /\ match connection with
     | None => snd run = (w, log)
     | Some c =>
         fst (snd run) = snd (conn_close c w)
         /\ match fst (conn_close c w) with
            | inr _ => snd (snd run) = log ++ [CallClose c]
            | inl error =>
                snd (snd run)
                = log ++ [CallClose c;
                          CallConsoleError (js "释放连接失败: "
                                            ++ printed (exnMessage error))]
            end
     end.
Proof.
  cbn zeta. unfold releaseConnection. destruct connection as [c|]; [| split; reflexivity].
  run_eff. destruct (conn_close c w) as [[error | []] w']; cbn [fst snd].
  - split; [reflexivity |]. split; [reflexivity |].
    exact (eq_sym (app_assoc log [CallClose c] [_])).
  - split; [reflexivity |]. split; reflexivity.
Qed.

Section DmlCallFacts.
Context `{JsRuntime} `{Driver}.

Lemma processInsertValue_expression (value : jsval) (p : processed) :
  processInsertValue value = inr p -> isExpression p = true ->
  In (default [] (expression p)) SQL_EXPRESSION_MARKERS.
Proof.
  unfold processInsertValue. intros Hp.
  destruct value as [| | b | n | s | t | bytes | items | props];
    repeat match type of Hp with
           | context [if ?b then _ else _] =>
               let Hb := fresh "Hb" in destruct b eqn:Hb
           | context [match ?x with _ => _ end] => destruct x
           end;
    try discriminate Hp; injection Hp as <-;
    cbn [isExpression expression plain asExpression];
    try discriminate; intros _; cbn [default from_option id];
    match goal with
    | Hb : bool_decide (?x ∈ SQL_EXPRESSION_MARKERS) = true |- _ =>
        apply bool_decide_eq_true in Hb; apply list_elem_of_In; exact Hb
    end.
Qed.

Lemma processInsertValue_error (value : jsval) (e : exn) :
  processInsertValue value = inl e ->
  truthy (getProp value (js "$expr")) = true
  /\ match e with
     | Classified err => err_exitCode err = ExitCode.QUERY_ERROR
     | NativeError _ => forall text, getProp value (js "$expr") <> VString text
     end.
Proof.
  unfold processInsertValue. intros Hp.
  destruct value as [| | b | n | s | t | bytes | items | props];
    repeat match type of Hp with
           | context [if ?b then _ else _] =>
               let Hb := fresh "Hb" in destruct b eqn:Hb
           | context [match ?x with _ => _ end] =>
               let Hx := fresh "Hx" in destruct x eqn:Hx
           end;
    try discriminate Hp; injection Hp as <-;
    (split; [reflexivity || assumption | try reflexivity; try (intros text; discriminate)]).
Qed.

Lemma collectBinds_shape (data : jsval) (columns : list jsstring)
    (placeholders0 : list jsstring) (binds0 : binds)
    (placeholders : list jsstring) (bindValues : binds) :
  collectBinds data columns placeholders0 binds0 = inr (placeholders, bindValues) ->
  exists placeholders1 binds1,
    placeholders = placeholders0 ++ placeholders1
    /\ bindValues = binds0 ++ binds1
    /\ Forall2 (fun col ph =>
                  (ph = js ":" ++ col /\ In col (List.map fst binds1))
                  \/ In ph SQL_EXPRESSION_MARKERS)
               columns placeholders1
    /\ Forall (fun b => In (fst b) columns) binds1.
Proof.
  revert placeholders0 binds0. induction columns as [|col columns IH];
    intros placeholders0 binds0; cbn [collectBinds].
  - intros [= <- <-]. exists [], []. rewrite !app_nil_r. repeat split; constructor.
  - destruct (processInsertValue (getProp data col)) as [e | p] eqn:Hp; [discriminate |].
    pose proof (processInsertValue_expression _ _ Hp) as Hmarker.
    destruct (isExpression p) eqn:Hexpr; intros Hrest; apply IH in Hrest;
      destruct Hrest as (placeholders1 & binds1 & -> & -> & Hshape & Hkeys).
    + exists (default [] (expression p) :: placeholders1), binds1.
      rewrite <- app_assoc. split; [reflexivity |]. split; [reflexivity |].
      split; [constructor; [right; apply Hmarker; reflexivity | exact Hshape] |].
      eapply Forall_impl; [exact Hkeys |]. cbn beta. intros b Hb. right. exact Hb.
    + exists ((js ":" ++ col) :: placeholders1), ((col, p_value p) :: binds1).
      rewrite <- !app_assoc. split; [reflexivity |]. split; [reflexivity |].
      split; [constructor; [left; split; [reflexivity | left; reflexivity] |] |].
      * eapply Forall2_impl; [exact Hshape |]. cbn beta.
        intros c ph [[-> Hin] | Hmark]; [left; split; [reflexivity | right; exact Hin] |].
        right. exact Hmark.
      * constructor; [left; reflexivity |].
        eapply Forall_impl; [exact Hkeys |]. cbn beta. intros b Hb. right. exact Hb.
Qed.

Lemma collectBinds_error (data : jsval) (columns : list jsstring)
    (placeholders0 : list jsstring) (binds0 : binds) (e : exn) :
  collectBinds data columns placeholders0 binds0 = inl e ->
  exists col, In col columns /\ processInsertValue (getProp data col) = inl e.
Proof.
  revert placeholders0 binds0. induction columns as [|col columns IH];
    intros placeholders0 binds0; cbn [collectBinds]; [discriminate |].
  destruct (processInsertValue (getProp data col)) as [e' | p] eqn:Hp.
  - intros [= <-]. exists col. split; [left; reflexivity | exact Hp].
  - destruct (isExpression p); intros Hrest; apply IH in Hrest;
      destruct Hrest as (c & Hin & Hc); exists c; (split; [right; exact Hin | exact Hc]).
Qed.

Lemma access_denied_class (message : option jsstring) :
  err_exitCode (newOracleMapError ErrorCode.ACCESS_DENIED message []) = ExitCode.QUERY_ERROR.
Proof. reflexivity. Qed.

End DmlCallFacts.


(** A table outside the whitelist is refused by [insertRecord] before any
    call of the driver.  Every classified error it throws exits in the query
    class; the one error that escapes unclassified is the native one raised,
    before any call, for a value whose [$expr] is truthy but not a string.
    A result means the whitelist allowed the table and [data] had keys. *)
Theorem insertRecord_failures `{JsRuntime} `{Driver} (env : option jsstring)
    (conn : conn) (tableName : jsstring) (data : jsval) (w : world) :
  let access := checkTableAccess env tableName in
  let run := insertRecord env conn tableName data (w, []) in
  (allowed access = false ->
   run = (inl (Classified (newOracleMapError ErrorCode.ACCESS_DENIED
                             (access_message access) [])), (w, [])))
  /\ match fst run with
     | inr done =>
         allowed access = true /\ ins_success done = true
         /\ ins_columns done = objectKeys data /\ ins_columns done <> []
     | inl (Classified err) => err_exitCode err = ExitCode.QUERY_ERROR
     | inl (NativeError message) =>
         snd run = (w, [])
         /\ exists col,
              In col (objectKeys data)
              /\ truthy (getProp (getProp data col) (js "$expr")) = true
              /\ forall text, getProp (getProp data col) (js "$expr") <> VString text
     end.
Proof.
  cbn zeta. split.
  - intros Hdenied. unfold insertRecord. rewrite Hdenied. reflexivity.
  - destruct (allowed (checkTableAccess env tableName)) eqn:Hallowed;
      [| unfold insertRecord; rewrite Hallowed; reflexivity].
    destruct (negb (truthy data) || negb (typeofObject data) || isArray data) eqn:Hshape;
      [unfold insertRecord; rewrite Hallowed, Hshape; reflexivity |].
    destruct (objectKeys data) as [|k ks] eqn:Hkeys;
      [unfold insertRecord; rewrite Hallowed, Hshape, Hkeys; reflexivity |].
    destruct (collectBinds data (k :: ks) [] []) as [e | [placeholders bindValues]] eqn:Hbinds.
    + assert (Hrun : insertRecord env conn tableName data (w, []) = (inl e, (w, []))).
      { unfold insertRecord. rewrite Hallowed, Hshape, Hkeys. cbn [negb length Nat.eqb].
        rewrite Hbinds. reflexivity. }
      rewrite Hrun. cbn [fst snd].
      apply collectBinds_error in Hbinds. destruct Hbinds as (col & Hin & Hcol).
      apply processInsertValue_error in Hcol. destruct Hcol as [Htruthy He].
      destruct e as [message | err].
      * split; [reflexivity |]. exists col. split; [exact Hin |]. split; assumption.
      * exact He.
    + assert (Hprepared : insertPrepared env tableName data
                (js "INSERT INTO " ++ toUpperCase tableName ++ js " ("
                 ++ join (js ", ") (objectKeys data) ++ js ") VALUES ("
                 ++ join (js ", ") placeholders ++ js ")") bindValues).
      { apply orb_false_elim in Hshape. destruct Hshape as [Hshape Harray].
        apply orb_false_elim in Hshape. destruct Hshape as [Htruthy Hobject].
        apply negb_false_iff in Htruthy, Hobject. unfold insertPrepared.
        rewrite Hkeys. repeat split; try assumption; try discriminate.
        exists placeholders. split; [exact Hbinds | reflexivity]. }
      pose proof (insertRecord_prepared_run env conn tableName data _ bindValues w
                    Hprepared) as Hrun.
      cbn zeta in Hrun.
      destruct (conn_execute conn _ bindValues (Some {| autoCommit := Some true |})
                  (snd (date_now w))) as [[e | result] w2]; rewrite Hrun; cbn [fst].
      * apply handleDmlError_codes.
      * cbn [ins_success ins_columns]. rewrite Hkeys.
        repeat split; discriminate.
Qed.

(** [executeDml] calls nothing for a statement its validator rejects and
    throws the validator's message as a syntax error.  It never lets a
    native error through: whatever it throws is classified in the query
    class, and after a call the last thing it sent is ROLLBACK.  A result
    means the validator accepted the text, the text was sent as it is and
    COMMIT was the last call. *)
Theorem executeDml_outcomes `{JsRuntime} `{Driver} (conn : conn) (sql : jsval)
    (binds : binds) (w : world) :
  let run := executeDml conn sql binds (w, []) in
  (dml_valid (validateDmlSql sql) = false ->
   run = (inl (Classified (newOracleMapError ErrorCode.SQL_SYNTAX_ERROR
                             (dml_error (validateDmlSql sql)) [])), (w, [])))
  /\ match fst run with
     | inr done =>
         dml_valid (validateDmlSql sql) = true
         /\ sql = VString (dml_sql done)
         /\ dml_success done = true
         /\ dml_result_verb done = dml_verb (validateDmlSql sql)
         /\ snd (snd run)
            = [CallExecute conn (dml_sql done) binds (Some {| autoCommit := Some false |});
               CallExecute conn (js "COMMIT") [] None]
     | inl (Classified err) =>
         err_exitCode err = ExitCode.QUERY_ERROR
         /\ (snd run = (w, [])
             \/ exists before,
                  snd (snd run) = before ++ [CallExecute conn (js "ROLLBACK") [] None])
     | inl (NativeError _) => False
     end.
Proof.
  cbn zeta. split; [apply executeDml_invalid_run |].
  destruct (dml_valid (validateDmlSql sql)) eqn:Hvalid.
  - destruct (validateDmlSql_valid_string sql Hvalid) as [text ->].
    pose proof (executeDml_valid_run conn text binds w Hvalid) as Hrun. cbn zeta in Hrun.
    destruct (conn_execute conn text binds (Some {| autoCommit := Some false |})
                (snd (date_now w))) as [[e | result] w2].
    + rewrite Hrun. cbn [fst snd]. split; [apply handleDmlError_codes |].
      right. eexists [_]. reflexivity.
    + destruct (conn_execute conn (js "COMMIT") [] None w2) as [[e | r] w3];
        rewrite Hrun; cbn [fst snd].
      * split; [apply handleDmlError_codes |]. right. eexists [_; _]. reflexivity.
      * cbn [dml_sql dml_success dml_result_verb]. repeat split.
  - rewrite (executeDml_invalid_run conn sql binds w Hvalid). cbn [fst snd].
    split; [reflexivity | left; reflexivity].
Qed.

(** ** What the read paths send *)

Section PaginationFacts.

Lemma enforceRowLimit_default_range (limit : numarg) :
  (1 <= enforceRowLimit limit None <= MAX_ROWS_LIMIT)%Z.
Proof.
  unfold enforceRowLimit, MAX_ROWS_LIMIT. cbn [default from_option].
  destruct limit as [| | n]; lia.
Qed.

Lemma buildPaginatedSql_limited (baseSql : jsstring) (l : Z) (offset : numarg) :
  (0 < l)%Z ->
  buildPaginatedSql baseSql (ArgNumber l) offset
  = strippedBody baseSql ++ js " OFFSET " ++ numberToString (default 0%Z (positiveArg offset))
    ++ js " ROWS FETCH NEXT " ++ numberToString l ++ js " ROWS ONLY".
Proof.
  intros Hl. unfold buildPaginatedSql. fold (strippedBody baseSql).
  rewrite (positiveArg_Some l Hl).
  destruct (positiveArg offset) as [o|]; cbn [default from_option].
  - paginated.
  - change (numberToString 0) with (js "0"). paginated.
Qed.

Lemma trimStart_keep (c : codeunit) (s : jsstring) :
  isWhiteSpace c = false -> trimStart (c :: s) = c :: s.
Proof. intros Hc. cbn [trimStart]. rewrite Hc. reflexivity. Qed.

Lemma trimEnd_keep (s : jsstring) (c : codeunit) (rest : jsstring) :
  isWhiteSpace c = false -> exists rest', trimEnd ((s ++ [c]) ++ rest) = (s ++ [c]) ++ rest'.
Proof.
  intros Hc. induction rest as [|x rest IH] using rev_ind.
  - exists []. rewrite !app_nil_r, trimEnd_snoc, Hc. reflexivity.
  - rewrite app_assoc, trimEnd_snoc. destruct (isWhiteSpace x).
    + exact IH.
    + exists (rest ++ [x]). symmetry. apply app_assoc.
Qed.

Lemma endsWith_last (s : jsstring) (c d : codeunit) :
  endsWith (s ++ [c]) [d] = cu_eqb d c.
Proof.
  unfold endsWith. rewrite rev_app_distr. cbn [rev app startsWith].
  apply andb_true_r.
Qed.

(** Text that starts with a visible character and ends with one other than
    the semicolon goes through the stripping unchanged. *)
Lemma strippedBody_keep (c : codeunit) (s : jsstring) (d : codeunit) :
  isWhiteSpace c = false -> isWhiteSpace d = false -> d <> 0x3B%N ->
  strippedBody ((c :: s) ++ [d]) = (c :: s) ++ [d].
Proof.
  intros Hc Hd Hsemi. unfold strippedBody, trim.
  change ((c :: s) ++ [d]) with (c :: (s ++ [d])) at 1 2 3.
  rewrite (trimStart_keep c _ Hc).
  change (c :: (s ++ [d])) with ((c :: s) ++ [d]).
  rewrite trimEnd_snoc, Hd.
  change (js ";") with [0x3B%N]. rewrite endsWith_last.
  destruct (cu_eqb 0x3B%N d) eqn:He; [| reflexivity].
  apply cu_eqb_eq in He. congruence.
Qed.

End PaginationFacts.

Section QueryFacts.
Context `{JsRuntime}.

(** The body of the text that [buildTableQuerySql] paginates keeps its
    SELECT. *)
Lemma tableQuery_body (upperName : jsstring) :
  exists rest, strippedBody (js "SELECT * FROM " ++ upperName) = js "SELECT * FROM" ++ rest.
Proof.
  unfold strippedBody, trim.
  destruct (trimEnd_keep (js "SELECT * FRO") 0x4D%N (0x20%N :: upperName) eq_refl)
    as [rest' Hrest].
  assert (Htrim : trimEnd (trimStart (js "SELECT * FROM " ++ upperName))
                  = js "SELECT * FROM" ++ rest') by exact Hrest.
  rewrite Htrim.
  destruct (endsWith (js "SELECT * FROM" ++ rest') (js ";")) eqn:Hends;
    [| exists rest'; reflexivity].
  destruct rest' as [|x rest'] using rev_ind; [vm_compute in Hends; discriminate Hends |].
  exists rest'. unfold slice_drop_last. rewrite app_assoc. apply removelast_last.
Qed.

Lemma executeQueryCall_valid (text : jsstring) (limit offset : numarg) :
  valid (validateSql (VString text)) = true ->
  executeQueryCall (VString text) limit offset
  = inr {| q_sql := strippedBody text ++ js " OFFSET "
                    ++ numberToString (default 0%Z (positiveArg offset))
                    ++ js " ROWS FETCH NEXT "
                    ++ numberToString (enforceRowLimit limit None) ++ js " ROWS ONLY";
           q_maxRows := enforceRowLimit limit None;
           q_warned := overLimit limit |}.
Proof.
  intros Hvalid. unfold executeQueryCall. cbn zeta. rewrite Hvalid. cbn [negb].
  rewrite buildPaginatedSql_limited; [reflexivity |].
  pose proof (enforceRowLimit_default_range limit). lia.
Qed.

Lemma validateSql_error_plain (sql : jsval) :
  includes (messageOrEmpty
              (Classified (newOracleMapError ErrorCode.SQL_SYNTAX_ERROR
                             (error (validateSql sql)) [])))
    (js "ORA-00942") = false.
Proof.
  destruct sql as [| | b | n | text | t | bytes | items | props];
    try (vm_compute; reflexivity).
  unfold validateSql. destruct (str_eqb text []); [vm_compute; reflexivity |].
  cbn zeta. destruct (negb _); [vm_compute; reflexivity |].
  destruct (List.find _ dangerousKeywords) as [keyword|] eqn:Hfind;
    [| vm_compute; reflexivity].
  apply List.find_some in Hfind. destruct Hfind as [Hin _]. vm_compute in Hin.
  repeat (destruct Hin as [<- | Hin]; [vm_compute; reflexivity |]).
  destruct Hin.
Qed.

End QueryFacts.

(** [executeQuery] either rejects the text with the validator's message, as
    a syntax error of the query class, or sends the text stripped of white
    space and of one trailing semicolon followed by an OFFSET and a FETCH
    NEXT clause; the row count of that clause is also the [maxRows] of the
    call, it lies between 1 and 1000, and the warning is raised exactly for
    a requested limit above 1000, which is cut to 1000. *)
Theorem executeQueryCall_row_cap `{JsRuntime} (sql : jsval) (limit offset : numarg) :
  match executeQueryCall sql limit offset with
  | inl e =>
      valid (validateSql sql) = false
      /\ e = Classified (newOracleMapError ErrorCode.SQL_SYNTAX_ERROR
                           (error (validateSql sql)) [])
      /\ exnMessage e <> None
  | inr call =>
      valid (validateSql sql) = true
      /\ (1 <= q_maxRows call <= 1000)%Z
      /\ q_maxRows call = enforceRowLimit limit None
      /\ (exists text body,
            sql = VString text /\ strippedOf text body
            /\ q_sql call
               = body ++ js " OFFSET "
                 ++ numberToString (match offset with
                                    | ArgNumber o => Z.max 0 o
                                    | ArgUndefined | ArgNull => 0
                                    end)
                 ++ js " ROWS FETCH NEXT " ++ numberToString (q_maxRows call)
                 ++ js " ROWS ONLY")
      /\ (q_warned call = true <-> exists n, limit = ArgNumber n /\ (1000 < n)%Z)
      /\ (q_warned call = true -> q_maxRows call = 1000%Z)
  end.
Proof.
  destruct (valid (validateSql sql)) eqn:Hvalid.
  - assert (Htext : exists text, sql = VString text).
    { destruct sql; try discriminate Hvalid. eauto. }
    destruct Htext as [text ->]. rewrite (executeQueryCall_valid text limit offset Hvalid).
    cbn [q_sql q_maxRows q_warned].
    split; [reflexivity |]. split; [apply enforceRowLimit_default_range |].
    split; [reflexivity |]. split; [| split].
    + exists text, (strippedBody text). split; [reflexivity |].
      split; [apply buildPaginatedSql_body |].
      assert (Hoff : default 0%Z (positiveArg offset)
                     = match offset with
                       | ArgNumber o => Z.max 0 o
                       | ArgUndefined | ArgNull => 0%Z
                       end).
      { destruct offset as [| | o]; try reflexivity. unfold positiveArg.
        destruct (Z.ltb_spec 0 o); cbv [from_option id]; lia. }
      rewrite Hoff. reflexivity.
    + unfold overLimit, MAX_ROWS_LIMIT. destruct limit as [| | n].
      * split; [discriminate | intros (n & Hn & _); discriminate Hn].
      * split; [discriminate | intros (n & Hn & _); discriminate Hn].
      * rewrite Z.ltb_lt. split; [intros Hn; exists n; auto |].
        intros (m & [= <-] & Hm). exact Hm.
    + unfold overLimit, enforceRowLimit, MAX_ROWS_LIMIT. destruct limit as [| | n];
        try discriminate. rewrite Z.ltb_lt. lia.
  - unfold executeQueryCall. cbn zeta. rewrite Hvalid. cbn [negb].
    split; [reflexivity |]. split; [reflexivity |]. discriminate.
Qed.

(** [queryTable] refuses a table outside the whitelist before anything is
    built; for an allowed table whose query the validator accepts, the text
    it hands over is paginated twice: the clauses for the caller's offset
    and clamped limit are followed by a second [OFFSET 0 ROWS FETCH NEXT 100
    ROWS ONLY], and [maxRows] is 100 whatever limit was asked for. *)
Theorem queryTableCall_paginates_twice `{JsRuntime} (env : option jsstring)
    (tableName : jsstring) (limit offset : numarg) :
  let access := checkTableAccess env tableName in
  let first := buildTableQuerySql tableName (ArgNumber (enforceRowLimit limit None)) offset in
  (allowed access = false ->
   queryTableCall env tableName limit offset
   = inl (Classified (newOracleMapError ErrorCode.ACCESS_DENIED (access_message access) [])))
  /\ (allowed access = true -> valid (validateSql (VString first)) = true ->
      queryTableCall env tableName limit offset
      = inr {| q_sql := first ++ js " OFFSET 0 ROWS FETCH NEXT 100 ROWS ONLY";
               q_maxRows := 100;
               q_warned := false |})
  /\ (allowed access = true -> valid (validateSql (VString first)) = false ->
      queryTableCall env tableName limit offset
      = inl (Classified (newOracleMapError ErrorCode.SQL_SYNTAX_ERROR
                           (error (validateSql (VString first))) [])))
  /\ (exists rest,
        first = js "SELECT * FROM" ++ rest ++ js " FETCH NEXT "
                ++ numberToString (enforceRowLimit limit None) ++ js " ROWS ONLY").
Proof.
  cbn zeta.
  set (safeLimit := enforceRowLimit limit None).
  assert (Hsafe : (0 < safeLimit)%Z).
  { pose proof (enforceRowLimit_default_range limit). subst safeLimit. lia. }
  assert (Hfirst : exists rest,
            buildTableQuerySql tableName (ArgNumber safeLimit) offset
            = js "SELECT * FROM" ++ rest ++ js " FETCH NEXT "
              ++ numberToString safeLimit ++ js " ROWS ONLY").
  { unfold buildTableQuerySql. rewrite (buildPaginatedSql_limited _ _ _ Hsafe).
    destruct (tableQuery_body (toUpperCase tableName)) as [rest ->].
    exists (rest ++ js " OFFSET " ++ numberToString (default 0%Z (positiveArg offset))
            ++ js " ROWS").
    rewrite <- !app_assoc. do 4 f_equal; eval_js; reflexivity. }
  split; [| split; [| split; [| exact Hfirst]]].
  - intros Hdenied. unfold queryTableCall. cbn zeta. rewrite Hdenied. reflexivity.
  - intros Hallowed Hvalid. unfold queryTableCall. cbn zeta. rewrite Hallowed. cbn [negb].
    fold safeLimit. rewrite (executeQueryCall_valid _ ArgUndefined ArgUndefined Hvalid).
    cbn [positiveArg default from_option overLimit].
    change (enforceRowLimit ArgUndefined None) with 100%Z.
    destruct Hfirst as [rest Hfirst]. f_equal. f_equal.
    assert (Hkeep : strippedBody (buildTableQuerySql tableName (ArgNumber safeLimit) offset)
                    = buildTableQuerySql tableName (ArgNumber safeLimit) offset).
    { rewrite Hfirst.
      assert (Hshape : js "SELECT * FROM" ++ rest ++ js " FETCH NEXT "
                       ++ numberToString safeLimit ++ js " ROWS ONLY"
                       = (0x53%N :: (js "ELECT * FROM" ++ rest ++ js " FETCH NEXT "
                                     ++ numberToString safeLimit ++ js " ROWS ONL"))
                         ++ [0x59%N]).
      { change (js " ROWS ONLY") with (js " ROWS ONL" ++ [0x59%N]).
        change (js "SELECT * FROM") with (0x53%N :: js "ELECT * FROM").
        rewrite <- !app_comm_cons, <- !app_assoc. reflexivity. }
      rewrite Hshape.
      apply strippedBody_keep; [reflexivity | reflexivity | discriminate]. }
    rewrite Hkeep. f_equal; vm_compute; reflexivity.
  - intros Hallowed Hinvalid. unfold queryTableCall. cbn zeta. rewrite Hallowed. cbn [negb].
    fold safeLimit. unfold executeQueryCall. cbn zeta. rewrite Hinvalid. cbn [negb].
    unfold queryTableCatch. rewrite validateSql_error_plain. reflexivity.
Qed.

Lemma queryTableCall_paginates_twice_witness :
  @queryTableCall asciiRuntime None (js "employees") (ArgNumber 10) (ArgNumber 5)
  = inr {| q_sql := js "SELECT * FROM EMPLOYEES OFFSET 5 ROWS FETCH NEXT 10 ROWS ONLY OFFSET 0 ROWS FETCH NEXT 100 ROWS ONLY";
           q_maxRows := 100;
           q_warned := false |}.
Proof.
  destruct (@queryTableCall_paginates_twice asciiRuntime None (js "employees")
              (ArgNumber 10) (ArgNumber 5)) as (_ & Hsent & _).
  rewrite Hsent; [| reflexivity | vm_compute; reflexivity].
  vm_compute. reflexivity.
Defined.

Section QueryErrorFacts.

Lemma includes_cons_other (c : codeunit) (s : jsstring) (p0 : codeunit) (p : jsstring) :
  cu_eqb p0 c = false -> includes (c :: s) (p0 :: p) = includes s (p0 :: p).
Proof. intros Hc. cbn [includes startsWith]. rewrite Hc. reflexivity. Qed.

Lemma handleQueryError_message_plain (error : exn) (sql : jsstring) :
  includes (err_message (handleQueryError error sql)) (js "ORA-00942") = false.
Proof.
  unfold handleQueryError. cbn zeta.
  destruct (includes (messageOrEmpty error) (js "ORA-00942")) eqn:Hora;
    [vm_compute; reflexivity |].
  destruct (includes (messageOrEmpty error) (js "ORA-00904")); [vm_compute; reflexivity |].
  destruct (includes (messageOrEmpty error) (js "ORA-00933")); [vm_compute; reflexivity |].
  unfold newOracleMapError. cbn [err_message].
  rewrite str_eqb_false by (eval_js; discriminate).
  revert Hora. generalize (messageOrEmpty error). intros oraError Hora.
  eval_js. cbn [app]. rewrite !includes_cons_other by reflexivity. eval_js_in Hora. exact Hora.
Qed.

End QueryErrorFacts.

(** Every error that leaves the [try] block of [executeQuery] is classified
    in the query class, with the native message and the statement in its
    details; a native ORA-00942 becomes a missing-table error.  No message
    chosen by that classification contains ORA-00942, so the [catch] of
    [queryTable] hands every such error on unchanged: its own missing-table
    error, with the table name and the suggestion, is not reached by an
    error of the driver. *)
Theorem queryTable_rethrows_classified (tableName : jsstring) (error : exn)
    (paginatedSql : jsstring) :
  let thrown := handleQueryError error paginatedSql in
  queryTableCatch tableName (executeQueryCatch error paginatedSql) = Classified thrown
  /\ (err_code thrown = ErrorCode.TABLE_NOT_FOUND \/ err_code thrown = ErrorCode.SQL_SYNTAX_ERROR
      \/ err_code thrown = ErrorCode.QUERY_EXECUTION_ERROR)
  /\ err_exitCode thrown = ExitCode.QUERY_ERROR
  /\ err_details thrown
     = [(js "oracleError", messageOrEmpty error); (js "sql", paginatedSql)]
  /\ (includes (messageOrEmpty error) (js "ORA-00942") = true ->
      err_code thrown = ErrorCode.TABLE_NOT_FOUND
      /\ err_message thrown = js "表或视图不存在")
  /\ (Forall (fun code => includes (messageOrEmpty error) code = false)
        [js "ORA-00942"; js "ORA-00904"; js "ORA-00933"] ->
      err_code thrown = ErrorCode.QUERY_EXECUTION_ERROR
      /\ err_message thrown = js "查询执行失败: " ++ messageOrEmpty error).
Proof.
  cbn zeta. split; [| split; [| split; [| split; [| split]]]].
  - unfold queryTableCatch, executeQueryCatch, messageOrEmpty. cbn [exnMessage default from_option id].
    rewrite handleQueryError_message_plain. reflexivity.
  - unfold handleQueryError. cbn zeta.
    repeat match goal with
           | |- context [if ?b then _ else _] => destruct b
           end; cbn [err_code newOracleMapError]; auto.
  - unfold handleQueryError. cbn zeta.
    repeat match goal with
           | |- context [if ?b then _ else _] => destruct b
           end; reflexivity.
  - unfold handleQueryError. cbn zeta.
    repeat match goal with
           | |- context [if ?b then _ else _] => destruct b
           end; reflexivity.
  - intros Hora. unfold handleQueryError. cbn zeta. rewrite Hora.
    split; [reflexivity | vm_compute; reflexivity].
  - intros Hnone. unfold handleQueryError. cbn zeta.
    repeat match goal with
           | Hall : Forall _ (_ :: _) |- _ =>
               let Hhead := fresh "Hhead" in
               apply List.Forall_cons_iff in Hall; destruct Hall as [Hhead Hall];
               cbn beta in Hhead; rewrite Hhead
           end.
    unfold newOracleMapError. cbn [err_code err_message]. split; [reflexivity |].
    rewrite str_eqb_false; [reflexivity |]. eval_js. discriminate.
Qed.

(** ** Normalizing twice *)

Section ValueFacts.
Context `{JsRuntime}.

Lemma firstn_app_exact (n : nat) (s suffix : jsstring) :
  n < length s -> firstn n (firstn n s ++ suffix) = firstn n s.
Proof.
  intros Hlen. rewrite firstn_app, length_firstn, firstn_firstn.
  replace (Init.Nat.min n n) with n by lia.
  replace (n - Init.Nat.min n (length s)) with 0 by lia.
  cbn [firstn]. apply app_nil_r.
Qed.

Lemma truncateString_idem (s : jsstring) (n : nat) :
  truncateString (truncateString s n) n = truncateString s n.
Proof.
  destruct (Nat.le_gt_cases (length s) n) as [Hshort | Hlong].
  - rewrite !truncateString_short; [reflexivity | exact Hshort |].
    rewrite truncateString_short; exact Hshort.
  - rewrite (truncateString_long s n Hlong). rewrite truncateString_long.
    + rewrite firstn_app_exact by exact Hlong. reflexivity.
    + rewrite length_app, length_firstn, suffix_length. lia.
Qed.

Lemma mapValue_short_string (s : jsstring) (oracleType : option jsstring) :
  length s <= 2048 -> mapValue (VString s) oracleType = VString s.
Proof.
  intros Hlen. rewrite mapValue_string_by_type.
  rewrite truncateString_short by lia.
  destruct (Nat.ltb_spec 2048 (length s)); [lia |].
  destruct (Nat.ltb_spec 4000 (length s)); [lia |].
  rewrite andb_false_r. destruct (bool_decide (clobLike oracleType)); reflexivity.
Qed.

Lemma mapValue_string_idem (s : jsstring) (oracleType : option jsstring) :
  mapValue (mapValue (VString s) oracleType) oracleType = mapValue (VString s) oracleType.
Proof.
  rewrite (mapValue_string_by_type s).
  destruct (bool_decide (clobLike oracleType)) eqn:Hclob.
  - rewrite mapValue_string_by_type, Hclob, truncateString_idem. reflexivity.
  - destruct (bool_decide (blobLike oracleType)) eqn:Hblob; cbn [andb].
    + destruct (Nat.ltb_spec 2048 (length s)) as [Hlong | Hshort].
      * rewrite mapValue_string_by_type, Hclob, Hblob. cbn [andb].
        destruct (Nat.ltb_spec 2048 (length (firstn 2048 s ++ TRUNCATE_SUFFIX)))
          as [_ | Hlen].
        -- rewrite firstn_app_exact by exact Hlong. reflexivity.
        -- rewrite length_app, length_firstn, suffix_length in Hlen. lia.
      * destruct (Nat.ltb_spec 4000 (length s)); [lia |].
        apply mapValue_short_string. exact Hshort.
    + destruct (Nat.ltb_spec 4000 (length s)) as [Hlong | Hshort].
      * rewrite mapValue_string_by_type, Hclob, Hblob. cbn [andb].
        rewrite truncateString_idem.
        destruct (4000 <? length (truncateString s 4000))%nat; reflexivity.
      * rewrite mapValue_string_by_type, Hclob, Hblob. cbn [andb].
        destruct (Nat.ltb_spec 4000 (length s)); [lia | reflexivity].
Qed.

Lemma mapValue_buffer_idem (bytes : list N) (oracleType : option jsstring) :
  mapValue (mapValue (VBuffer bytes) oracleType) oracleType
  = mapValue (VBuffer bytes) oracleType.
Proof.
  rewrite mapValue_buffer.
  destruct (Nat.ltb_spec 1024 (length bytes)) as [Hlong | Hshort];
    apply mapValue_short_string.
  - rewrite length_app, base64_length, length_firstn, suffix_length.
    replace (Init.Nat.min 1024 (length bytes)) with 1024 by lia.
    change ((1024 + 2) / 3) with 342. lia.
  - rewrite base64_length.
    assert ((length bytes + 2) / 3 <= 342); [| lia].
    apply Nat.Div0.div_le_upper_bound. lia.
Qed.

(** The mapper on a [Date], by the kind of its column type. *)
Lemma mapValue_date (t : option Z) (oracleType : option jsstring) :
  let upperType := toUpperCase (default [] oracleType) in
  mapValue (VDate t) oracleType
  = if startsWith upperType (js "DATE") || startsWith upperType (js "TIMESTAMP")
    then dateToIso t else VDate t.
Proof. reflexivity. Qed.

Lemma date_type_not_lob (oracleType : option jsstring) :
  let upperType := toUpperCase (default [] oracleType) in
  startsWith upperType (js "DATE") || startsWith upperType (js "TIMESTAMP") = true ->
  ~ clobLike oracleType /\ ~ blobLike oracleType.
Proof.
  cbn zeta. unfold clobLike, blobLike. cbn zeta. intros Hdate.
  split; intros [Ht | [Ht | Ht]]; rewrite Ht in Hdate; vm_compute in Hdate;
    discriminate Hdate.
Qed.

End ValueFacts.

(** Normalizing a normalized value changes nothing: a cut text is not cut
    again and carries the marker once, the base64 text of a Buffer is short
    enough to pass under every column type, and the other values are
    already in their final form.  For a valid Date this needs its ISO
    rendering to be no longer than 4000 code units. *)
Theorem mapValue_idempotent `{JsRuntime} (value : jsval) (oracleType : option jsstring) :
  (forall ms, value = VDate (Some ms) -> length (toISOString ms) <= 4000) ->
  mapValue (mapValue value oracleType) oracleType = mapValue value oracleType.
Proof.
  intros Hiso.
  destruct value as [| | b | n | s | t | bytes | items | props]; try reflexivity.
  - apply mapValue_string_idem.
  - rewrite mapValue_date. cbn zeta.
    destruct (startsWith _ (js "DATE") || startsWith _ (js "TIMESTAMP")) eqn:Hdate.
    + destruct t as [ms|]; [| reflexivity]. cbn [dateToIso].
      destruct (date_type_not_lob oracleType Hdate) as [Hclob Hblob].
      rewrite mapValue_string_by_type.
      rewrite (bool_decide_eq_false_2 _ Hclob), (bool_decide_eq_false_2 _ Hblob).
      cbn [andb]. specialize (Hiso ms eq_refl).
      destruct (Nat.ltb_spec 4000 (length (toISOString ms))); [lia | reflexivity].
    + rewrite mapValue_date. cbn zeta. rewrite Hdate. reflexivity.
  - apply mapValue_buffer_idem.
Qed.

Lemma mapValue_idempotent_witness :
  @mapValue asciiRuntime
    (@mapValue asciiRuntime (VDate (Some 0%Z)) (Some (js "timestamp(6)")))
    (Some (js "timestamp(6)"))
  = VString (js "1970-01-01T00:00:00.000Z").
Proof.
  rewrite (@mapValue_idempotent asciiRuntime (VDate (Some 0%Z)) (Some (js "timestamp(6)"))).
  - vm_compute. reflexivity.
  - intros ms [= <-]. vm_compute. lia.
Defined.

(** What comes out of [mapValue] is never [undefined] and never a Buffer;
    booleans, numbers, arrays and objects come out as they went in; a Date
    comes out as a Date exactly under a column type that does not start
    with DATE or TIMESTAMP, and under such a type a valid one becomes its
    ISO text and an invalid one [null]. *)
Theorem mapValue_kinds `{JsRuntime} (value : jsval) (oracleType : option jsstring) :
  let upperType := toUpperCase (default [] oracleType) in
  let isDateType :=
    startsWith upperType (js "DATE") || startsWith upperType (js "TIMESTAMP") in
  mapValue value oracleType <> VUndefined
  /\ (forall bytes, mapValue value oracleType <> VBuffer bytes)
  /\ match value with
     | VBool _ | VNumber _ | VArray _ | VObject _ => mapValue value oracleType = value
     | VDate t =>
         mapValue value oracleType
         = if isDateType
           then match t with Some ms => VString (toISOString ms) | None => VNull end
           else value
     | VUndefined | VNull => mapValue value oracleType = VNull
     | VString _ | VBuffer _ => exists out, mapValue value oracleType = VString out
     end.
Proof.
  cbn zeta.
  destruct value as [| | b | n | s | t | bytes | items | props];
    try (split; [discriminate | split; [discriminate | reflexivity]]).
  - rewrite mapValue_string_by_type.
    repeat match goal with
           | |- context [if ?b then _ else _] => destruct b
           end; (split; [discriminate | split; [discriminate | eexists; reflexivity]]).
  - rewrite mapValue_date. cbn zeta.
    destruct (startsWith _ (js "DATE") || startsWith _ (js "TIMESTAMP"));
      [destruct t as [ms|] |]; cbn [dateToIso];
      (split; [discriminate | split; [discriminate | reflexivity]]).
  - rewrite mapValue_buffer. destruct (1024 <? length bytes)%nat;
      (split; [discriminate | split; [discriminate | eexists; reflexivity]]).
Qed.

(** ** Sessions of the write tools *)

Section AppendFacts.
Context `{JsRuntime} `{Driver}.

Lemma appends_ret {A} (a : A) : appends (mret a : Eff.M A).
Proof.
  intros w log. unfold mret, eff_ret, Eff.ret. cbn [fst snd].
  rewrite app_nil_r. reflexivity.
Qed.

Lemma appends_throw {A} (e : exn) : appends (Eff.throw e : Eff.M A).
Proof.
  intros w log. unfold Eff.throw. cbn [fst snd]. rewrite app_nil_r. reflexivity.
Qed.

Lemma appends_perform {A} (c : call) (f : world -> (exn + A) * world) :
  appends (Eff.perform c f).
Proof. intros w log. unfold Eff.perform. cbn [fst snd]. destruct (f w). reflexivity. Qed.

Lemma appends_consoleError (text : jsstring) : appends (Eff.consoleError text).
Proof. intros w log. reflexivity. Qed.

Lemma appends_now : appends Eff.now.
Proof.
  intros w log. unfold Eff.now. cbn [fst snd]. destruct (date_now w).
  cbn [fst snd]. rewrite app_nil_r. reflexivity.
Qed.

Lemma appends_bind {A B} (m : Eff.M A) (k : A -> Eff.M B) :
  appends m -> (forall a, appends (k a)) -> appends (m ≫= k).
Proof.
  intros Hm Hk w log. unfold mbind, eff_bind, Eff.bind. rewrite (Hm w log).
  destruct (m (w, [])) as [[e | a] [w1 calls]]; cbn [fst snd]; [reflexivity |].
  rewrite (Hk a w1 (log ++ calls)), (Hk a w1 calls). cbn [fst snd].
  rewrite app_assoc. reflexivity.
Qed.

Lemma appends_tryCatch {A} (m : Eff.M A) (h : exn -> Eff.M A) :
  appends m -> (forall e, appends (h e)) -> appends (Eff.tryCatch m h).
Proof.
  intros Hm Hh w log. unfold Eff.tryCatch. rewrite (Hm w log).
  destruct (m (w, [])) as [[e | a] [w1 calls]]; cbn [fst snd]; [| reflexivity].
  rewrite (Hh e w1 (log ++ calls)), (Hh e w1 calls). cbn [fst snd].
  rewrite app_assoc. reflexivity.
Qed.

Lemma appends_tryFinally {A} (body : Eff.M A) (finalizer : Eff.M unit) :
  appends body -> appends finalizer -> appends (tryFinally body finalizer).
Proof.
  intros Hb Hf w log. unfold tryFinally. rewrite (Hb w log).
  destruct (body (w, [])) as [r [w1 calls]]; cbn [fst snd].
  rewrite (Hf w1 (log ++ calls)), (Hf w1 calls).
  destruct (finalizer (w1, [])) as [[e | u] [w2 more]]; cbn [fst snd];
    rewrite app_assoc; reflexivity.
Qed.

Ltac appends_step :=
  first [ apply appends_ret | apply appends_throw | apply appends_perform
        | apply appends_consoleError | apply appends_now
        | apply appends_bind | apply appends_tryCatch | apply appends_tryFinally
        | intros ? ].

Lemma appends_releaseConnection (connection : option conn) :
  appends (releaseConnection connection).
Proof.
  unfold releaseConnection, Eff.close. destruct connection; repeat appends_step.
Qed.

Lemma appends_executeDml (c : conn) (sql : jsval) (b : binds) :
  appends (executeDml c sql b).
Proof.
  unfold executeDml, Eff.execute. destruct (negb _); repeat appends_step.
Qed.

Lemma appends_insertRecord (env : option jsstring) (c : conn) (table : jsstring)
    (data : jsval) :
  appends (insertRecord env c table data).
Proof.
  unfold insertRecord, Eff.execute.
  destruct (negb _); [apply appends_throw |].
  destruct (_ || _); [apply appends_throw |].
  destruct (_ =? _)%nat; [apply appends_throw |].
  destruct (collectBinds _ _ _ _) as [e | [placeholders bindValues]];
    repeat appends_step.
Qed.

Lemma releaseConnection_run (c : conn) (w : world) :
  exists tail,
    releaseConnection (Some c) (w, []) = (inr tt, (snd (conn_close c w), CallClose c :: tail))
    /\ (tail = [] \/ exists text, tail = [CallConsoleError text]).
Proof.
  unfold releaseConnection. run_eff.
  destruct (conn_close c w) as [[error | []] w']; cbn [fst snd].
  - eexists. split; [reflexivity | right; eexists; reflexivity].
  - exists []. split; [reflexivity | left; reflexivity].
Qed.

(** A handler of the shape [checkConnection(); conn = await getConnection();
    try { work } finally { release }], call by call. *)
Lemma session_run {A} (pool : bool) (work : conn -> Eff.M A) (w : world) :
  (forall c, appends (work c)) ->
  let handler :=
    checkConnection true;;
    conn ← getConnection pool;
    tryFinally (work conn) (releaseConnection (Some conn)) in
  match getConnection pool (w, []) with
  | (inl e, s1) => handler (w, []) = (inl e, s1)
  | (inr c, (w1, checkout)) =>
      exists tail,
        handler (w, [])
        = (fst (work c (w1, [])),
           (snd (conn_close c (fst (snd (work c (w1, []))))),
            checkout ++ snd (snd (work c (w1, []))) ++ CallClose c :: tail))
        /\ (tail = [] \/ exists text, tail = [CallConsoleError text])
  end.
Proof.
  intros Hwork. cbn zeta.
  set (handler := checkConnection true;; _).
  assert (Hhandler :
    handler (w, [])
    = match getConnection pool (w, []) with
      | (inl e, s1) => (inl e, s1)
      | (inr c, s1) => tryFinally (work c) (releaseConnection (Some c)) s1
      end).
  { subst handler. unfold checkConnection. cbn [negb].
    unfold mbind, eff_bind, Eff.bind, mret, eff_ret, Eff.ret.
    destruct (getConnection pool (w, [])) as [[e | c] s1]; reflexivity. }
  rewrite Hhandler. clear Hhandler handler.
  destruct (getConnection pool (w, [])) as [[e | c] [w1 checkout]]; [reflexivity |].
  unfold tryFinally. rewrite (Hwork c w1 checkout).
  destruct (work c (w1, [])) as [r [w2 calls]]. cbn [fst snd].
  rewrite (appends_releaseConnection (Some c) w2 (checkout ++ calls)).
  destruct (releaseConnection_run c w2) as (tail & -> & Htail). cbn [fst snd].
  exists tail. rewrite <- app_assoc. split; [reflexivity | exact Htail].
Qed.

Lemma executeDml_only_executes (c : conn) (sql : jsval) (b : binds) (w : world) :
  Forall (fun call => exists text b' o, call = CallExecute c text b' o)
    (snd (snd (executeDml c sql b (w, [])))).
Proof.
  destruct (dml_valid (validateDmlSql sql)) eqn:Hvalid.
  - destruct (validateDmlSql_valid_string sql Hvalid) as [text ->].
    pose proof (executeDml_valid_run c text b w Hvalid) as Hrun. cbn zeta in Hrun.
    destruct (conn_execute c text b (Some {| autoCommit := Some false |})
                (snd (date_now w))) as [[e | result] w2].
    + rewrite Hrun. cbn [snd]. repeat constructor; eexists _, _, _; reflexivity.
    + destruct (conn_execute c (js "COMMIT") [] None w2) as [[e | r] w3];
        rewrite Hrun; cbn [snd]; repeat constructor; eexists _, _, _; reflexivity.
  - rewrite (executeDml_invalid_run c sql b w Hvalid). constructor.
Qed.

End AppendFacts.

(** The write tool for statements refuses to work before [oracle_connect]
    and then calls nothing.  Once a connection is handed out, the outcome of
    the tool is the outcome of [executeDml] on it, result or error: the
    release that follows never replaces it.  The connection is closed once,
    after the last call of the statement, whatever the statement did, and a
    failure of the close is only logged.  A statement the validator rejects
    still costs the checkout and the close, and the dispatcher answers it
    with the validator's message as an error text. *)
Theorem handleExecuteDml_session `{JsRuntime} `{Driver} (pool : bool) (sql : jsval)
    (w : world) :
  handleExecuteDml false pool sql (w, [])
  = (inl (NativeError (Some (js "未连接到数据库，请先使用 oracle_connect 连接"))), (w, []))
  /\ match getConnection pool (w, []) with
     | (inl e, s1) => handleExecuteDml true pool sql (w, []) = (inl e, s1)
     | (inr c, (w1, checkout)) =>
         let work := executeDml c sql [] (w1, []) in
         exists tail,
           handleExecuteDml true pool sql (w, [])
           = (fst work,
              (snd (conn_close c (fst (snd work))),
               checkout ++ snd (snd work) ++ CallClose c :: tail))
           /\ (tail = [] \/ exists text, tail = [CallConsoleError text])
           /\ Forall (fun call => exists text b o, call = CallExecute c text b o)
                (snd (snd work))
           /\ (dml_valid (validateDmlSql sql) = false ->
               callTool (handleExecuteDml true pool sql) (w, [])
               = (inr (ToolError dml_result
                         (js "错误: "
                          ++ err_message (newOracleMapError ErrorCode.SQL_SYNTAX_ERROR
                                            (dml_error (validateDmlSql sql)) []))),
                  (snd (conn_close c w1), checkout ++ CallClose c :: tail)))
     end.
Proof.
  split; [reflexivity |].
  pose proof (session_run pool (fun c => executeDml c sql []) w
                (fun c => appends_executeDml c sql [])) as Hrun.
  cbn zeta in Hrun.
  destruct (getConnection pool (w, [])) as [[e | c] [w1 checkout]]; [exact Hrun |].
  destruct Hrun as (tail & Hrun & Htail). cbn zeta. exists tail.
  pose proof (Hrun : handleExecuteDml true pool sql (w, []) = _) as Hsession.
  split; [exact Hsession |]. split; [exact Htail |].
  split; [apply executeDml_only_executes |].
  intros Hinvalid. unfold callTool, Eff.tryCatch, mbind, eff_bind, Eff.bind.
  rewrite Hsession, (executeDml_invalid_run c sql [] w1 Hinvalid). reflexivity.
Qed.

(** The write tool for records behaves the same way around [insertRecord]:
    nothing is called before [oracle_connect]; the outcome is the one of
    [insertRecord], with the statement text left out of the answer; the
    connection is closed once, after the at most one statement; and a table
    outside the whitelist costs the checkout and the close but no
    statement. *)
Theorem handleInsertRecord_session `{JsRuntime} `{Driver} (env : option jsstring)
    (pool : bool) (table : jsstring) (data : jsval) (w : world) :
  handleInsertRecord env false pool table data (w, [])
  = (inl (NativeError (Some (js "未连接到数据库，请先使用 oracle_connect 连接"))), (w, []))
  /\ match getConnection pool (w, []) with
     | (inl e, s1) => handleInsertRecord env true pool table data (w, []) = (inl e, s1)
     | (inr c, (w1, checkout)) =>
         let work := insertRecord env c table data (w1, []) in
         exists tail,
           snd (handleInsertRecord env true pool table data (w, []))
           = (snd (conn_close c (fst (snd work))),
              checkout ++ snd (snd work) ++ CallClose c :: tail)
           /\ (tail = [] \/ exists text, tail = [CallConsoleError text])
           /\ match fst work with
              | inl e => fst (handleInsertRecord env true pool table data (w, [])) = inl e
              | inr result =>
                  fst (handleInsertRecord env true pool table data (w, []))
                  = inr {| ans_success := ins_success result;
                           ans_table := ins_table result;
                           ans_rowsAffected := ins_rowsAffected result;
                           ans_columns := ins_columns result;
                           ans_executionTime := ins_executionTime result |}
              end
           /\ length (snd (snd work)) <= 1
           /\ (allowed (checkTableAccess env table) = false -> snd (snd work) = [])
     end.
Proof.
  split; [reflexivity |].
  set (answer := fun result : insert_result =>
                   {| ans_success := ins_success result;
                      ans_table := ins_table result;
                      ans_rowsAffected := ins_rowsAffected result;
                      ans_columns := ins_columns result;
                      ans_executionTime := ins_executionTime result |}).
  assert (Happends : forall c,
            appends (result ← insertRecord env c table data; mret (answer result))).
  { intros c. apply appends_bind; [apply appends_insertRecord | intros r; apply appends_ret]. }
  pose proof (session_run pool _ w Happends) as Hrun. cbn zeta in Hrun.
  destruct (getConnection pool (w, [])) as [[e | c] [w1 checkout]]; [exact Hrun |].
  destruct Hrun as (tail & Hrun & Htail). cbn zeta. exists tail.
  pose proof (Hrun : handleInsertRecord env true pool table data (w, []) = _) as Hsession.
  clear Hrun. rename Hsession into Hrun.
  assert (Hwork : (result ← insertRecord env c table data; mret (answer result)) (w1, [])
                  = (match fst (insertRecord env c table data (w1, [])) with
                     | inl e => inl e
                     | inr result => inr (answer result)
                     end, snd (insertRecord env c table data (w1, [])))).
  { unfold mbind, eff_bind, Eff.bind, mret, eff_ret, Eff.ret.
    destruct (insertRecord env c table data (w1, [])) as [[e | result] s]; reflexivity. }
  rewrite Hwork in Hrun. cbn [fst snd] in Hrun. rewrite Hrun. cbn [fst snd].
  split; [reflexivity |]. split; [exact Htail |].
  split; [destruct (fst (insertRecord env c table data (w1, []))); reflexivity |].
  destruct (insertRecord_run_cases env c table data w1)
    as [[e He] | (text & bindValues & Hprepared)].
  - rewrite He. cbn [snd length]. split; [lia | reflexivity].
  - pose proof (insertRecord_prepared_run env c table data text bindValues w1 Hprepared)
      as Hsent.
    cbn zeta in Hsent. destruct Hprepared as (Hallowed & _).
    destruct (conn_execute c text bindValues (Some {| autoCommit := Some true |})
                (snd (date_now w1))) as [[e | result] w2]; rewrite Hsent; cbn [snd length];
      (split; [lia | intros Hdenied; congruence]).
Qed.
